(** * To-do list with productivity analytics: a shallow embedding

    Source files: [app.py] (task session, daily capacity, timetable, ML
    dashboard), [get_data.py] (the same task session without analytics) and
    [train.py] (offline trainer).

    Conventions of the embedding.
    - Python [int] is [Z]; [len] is [Z.of_nat (length _)].
    - A [datetime.date] is its proleptic ordinal (a day number, [Z]); a
      [datetime.datetime] is the number of microseconds elapsed since midnight
      of ordinal day 0, so [date_of] and [hour_of] are plain divisions.
    - The probabilities that come out of the random forest are the kernel's
      binary64 [float].  A float that the program computes itself (a
      completion rate, a group mean) is written as the rational number it
      denotes, and every division and multiplication rounds its exact result
      to the binary64 grid by [binary64].
    - Every call of [datetime.now()] is an explicit argument, in evaluation
      order ([now0], [now1]).
    - Fitting the random forest and drawing a permutation from numpy's
      generator are parameters of the sections that use them. *)

From Stdlib Require Import ZArith QArith Qround Qpower Qreduction Lia Lqa.
From Stdlib Require Import Floats.PrimFloat Floats.FloatOps.
From Stdlib Require Uint63.
From stdpp Require Import gmap strings list sorting.

Set Warnings "-inexact-float".
Open Scope Z_scope.

(** ** Time *)

Abbreviation date := Z.
Abbreviation datetime := Z.

Definition US_PER_MINUTE : Z := 60000000.
Definition US_PER_HOUR : Z := 3600000000.
Definition US_PER_DAY : Z := 86400000000.

(** [datetime.date()] *)
Definition date_of (dt : datetime) : date := dt / US_PER_DAY.

(** [datetime.hour] *)
Definition hour_of (dt : datetime) : Z := (dt mod US_PER_DAY) / US_PER_HOUR.

(** [timedelta(minutes=m)], in microseconds *)
Definition timedelta_minutes (m : Z) : Z := m * US_PER_MINUTE.

(** [pd.to_datetime] of a [date]: midnight of that day *)
Definition to_datetime (d : date) : datetime := d * US_PER_DAY.

(** [Timedelta.days]: the day component, rounded towards minus infinity *)
Definition dt_days (delta : Z) : Z := delta / US_PER_DAY.

(** [Timestamp.dayofweek]: Monday is 0; ordinal day 1 is a Monday *)
Definition dayofweek (dt : datetime) : Z := (date_of dt + 6) mod 7.

(** ** Tasks *)

Inductive Priority := Low | Medium | High.

Global Instance Priority_eq_dec : EqDecision Priority.
Proof. solve_decision. Defined.

Module Task.
Record t := mk {
  id : Z;
  description : string;
  due_date : date;
  priority : Priority;
  created_at : datetime;
  completed : bool
}.
End Task.

Global Instance Task_eq_dec : EqDecision Task.t.
Proof. solve_decision. Defined.

(** Streamlit status boxes shown to the user. *)
Inductive notice :=
  | st_success (msg : string)
  | st_warning (msg : string)
  | st_error (msg : string).

(** Python truth value of a [str]: false exactly for the empty string. *)
Definition truthy (s : string) : bool :=
  match s with EmptyString => false | String _ _ => true end.

(** ** The task session ([main], sidebar and task forms) *)

(** The "Add Task" button. *)
Definition add_task (new_task : string) (due_date : date) (priority : Priority)
    (now : datetime) (tasks : list Task.t) : list Task.t * notice :=
  if truthy new_task then
    let task := Task.mk (Z.of_nat (length tasks) + 1) new_task due_date priority now false in
    (tasks ++ [task], st_success "Task added successfully!")
  else
    (tasks, st_warning "Please enter a task description").

(** [[t for t in tasks if t["id"] != i]] *)
Definition delete_task (i : Z) (tasks : list Task.t) : list Task.t :=
  filter (λ t, Task.id t ≠ i) tasks.

(** [task["completed"] = not task["completed"]] *)
Definition toggle (task : Task.t) : Task.t :=
  Task.mk (Task.id task) (Task.description task) (Task.due_date task)
          (Task.priority task) (Task.created_at task) (negb (Task.completed task)).

(** A user action.  A form button belongs to one displayed task object; the
    object is named by its position [k] in the session list. *)
Inductive action :=
  | AddTask (new_task : string) (due_date : date) (priority : Priority) (now : datetime)
  | Complete (k : nat)
  | Delete (k : nat).

Definition step (tasks : list Task.t) (a : action) : list Task.t :=
  match a with
  | AddTask new_task due_date priority now =>
      fst (add_task new_task due_date priority now tasks)
  | Complete k => alter toggle k tasks
  | Delete k =>
      match tasks !! k with
      | Some task => delete_task (Task.id task) tasks
      | None => tasks
      end
  end.

(** The session starts with [st.session_state.tasks = []]. *)
Definition run (actions : list action) : list Task.t := foldl step [] actions.

Definition ids (tasks : list Task.t) : list Z := Task.id <$> tasks.

Definition is_delete (a : action) : Prop :=
  match a with Delete _ => True | _ => False end.

(** ** Features ([analyze_productivity]) *)

(** [(df['due_date'] - df['created_at']).dt.days] for one row *)
Definition days_to_due (task : Task.t) : Z :=
  dt_days (to_datetime (Task.due_date task) - Task.created_at task).

(** [LabelEncoder]: the classes are the distinct labels in sorted order
    ("High" < "Low" < "Medium" as strings); a label's code is its position. *)
Definition le_fit (col : list Priority) : list Priority :=
  filter (λ p, p ∈ col) [High; Low; Medium].

Fixpoint index_of (p : Priority) (classes : list Priority) : Z :=
  match classes with
  | [] => 0
  | c :: cs => if decide (c = p) then 0 else 1 + index_of p cs
  end.

Definition le_fit_transform (col : list Priority) : list Z :=
  let classes := le_fit col in (λ p, index_of p classes) <$> col.

Module Feat.
Record t := mk {
  task : Task.t;              (* the columns copied from the task dict *)
  days_to_due : Z;
  is_completed : Z;
  priority_encoded : Z
}.
End Feat.

Module Row.
Record t := mk {
  feat : Feat.t;
  completion_probability : float
}.
End Row.

Definition build_features (tasks : list Task.t) : list Feat.t :=
  let codes := le_fit_transform (Task.priority <$> tasks) in
  zip_with (λ task code,
      Feat.mk task (days_to_due task) (if Task.completed task then 1 else 0) code)
    tasks codes.

Section Analysis.
(** [RandomForestClassifier(n_estimators=100, random_state=42).fit(X, y)]:
    either the text of the exception raised while fitting or predicting, or
    the fitted map from a feature vector to the probability of class 1. *)
Variable random_forest : list (Z * Z) → list Z → string + (Z * Z → float).

Definition feature_vector (f : Feat.t) : Z * Z :=
  (Feat.days_to_due f, Feat.priority_encoded f).

(** Returns the data frame (the figure is a rendering artefact and is left
    out) and what was written to the page. *)
Definition analyze_productivity (tasks : list Task.t) : option (list Row.t) * list notice :=
  match tasks with
  | [] => (None, [])
  | _ =>
      let df := build_features tasks in
      let X := feature_vector <$> df in
      let y := Feat.is_completed <$> df in
      match random_forest X y with
      | inr predict_proba1 =>
          (Some ((λ f, Row.mk f (predict_proba1 (feature_vector f))) <$> df), [])
      | inl e =>
          (None, [st_error ("Error in productivity analysis: " +:+ e)])
      end
  end.
End Analysis.

(** [df[df['completion_probability'] < 0.3]] *)
Definition high_risk_tasks (df : list Row.t) : list Row.t :=
  filter (λ r, PrimFloat.ltb (Row.completion_probability r) 0.3%float = true) df.

(** ** Binary64 arithmetic (Python [float], numpy [float64])

    A finite float is written as the rational number it denotes.
    [binary64 x] is the value of the binary64 grid (mantissas of 53 bits,
    exponents from -1074) nearest to [x], a tie going to the even mantissa:
    the result that IEEE 754 prescribes for a division or a multiplication
    whose exact result is [x].  The result is in lowest terms.  Overflow
    (from [2^1024] on) is left out: the numbers computed here stay below
    101. *)

(** [floor (log2 x)], for [0 < x] *)
Definition ilog2 (x : Q) : Z :=
  let k := Z.log2 (Qnum x) - Z.log2 (Z.pos (Qden x)) in
  if Qle_bool (2 ^ k) x then k else k - 1.

(** The nearest integer, a tie going to the even one. *)
Definition round_half_even (s : Q) : Z :=
  let f := Qfloor s in
  match (s - inject_Z f ?= 1 # 2)%Q with
  | Lt => f
  | Gt => f + 1
  | Eq => if Z.even f then f else f + 1
  end.

(** Mantissa and exponent of the float nearest to [x], for [0 < x]. *)
Definition binary64_parts (x : Q) : Z * Z :=
  let e := Z.max (ilog2 x - 52) (-1074) in
  (round_half_even (x * 2 ^ (- e)), e).

Definition binary64 (x : Q) : Q :=
  match Qnum x with
  | Z0 => 0
  | Z.pos _ => let '(m, e) := binary64_parts x in Qred (inject_Z m * 2 ^ e)
  | Z.neg _ => let '(m, e) := binary64_parts (- x) in Qred (- (inject_Z m * 2 ^ e))
  end.

(** Python [a / b] on [int]: the quotient of the integers, rounded once. *)
Definition int_truediv (a b : Z) : Q := binary64 (inject_Z a / inject_Z b).

(** numpy's conversion of an [int64] to [float64] *)
Definition float_of_int (n : Z) : Q := binary64 (inject_Z n).

(** [x / y] and [x * y] on floats *)
Definition float_div (x y : Q) : Q := binary64 (x / y).
Definition float_mul (x y : Q) : Q := binary64 (x * y).

(** The kernel's float with a given mantissa and exponent, and the
    comparison of [binary64_parts] with the kernel's own division and
    multiplication on [c / t * 100]. *)
Definition float_of_parts (me : Z * Z) : float :=
  Z.ldexp (PrimFloat.of_uint63 (Uint63.of_Z me.1)) me.2.

Definition kernel_float (n : Z) : float := PrimFloat.of_uint63 (Uint63.of_Z n).

Definition kernel_agrees (c t : Z) : bool :=
  PrimFloat.eqb (float_of_parts (binary64_parts (inject_Z c / inject_Z t)))
                (kernel_float c / kernel_float t)%float
  && PrimFloat.eqb (float_of_parts (binary64_parts (int_truediv c t * 100)))
                   (kernel_float c / kernel_float t * 100)%float.

(** ** Daily capacity ([analyze_daily_productivity]) *)

Definition analyze_daily_productivity (now0 now1 : datetime) (tasks : list Task.t)
    : option (list Task.t) * option Q * option bool :=
  let today := date_of now0 in
  let today_tasks := filter (λ task, Task.due_date task = today) tasks in
  match today_tasks with
  | [] => (None, None, None)
  | _ =>
      let completed_today :=
        Z.of_nat (length (filter (λ task, Task.completed task = true) today_tasks)) in
      let total_today := Z.of_nat (length today_tasks) in
      let completion_rate :=
        if 0 <? total_today
        then float_mul (int_truediv completed_today total_today) 100
        else 0%Q in
      let avg_task_time := 30 in
      let remaining_tasks := total_today - completed_today in
      let estimated_time_needed := remaining_tasks * avg_task_time in
      let current_hour := hour_of now1 in
      let remaining_hours := 24 - current_hour in
      let can_complete := estimated_time_needed <=? remaining_hours * 60 in
      (Some today_tasks, Some completion_rate, Some can_complete)
  end.

(** ** Timetable ([generate_timetable]) *)

Module Slot.
Record t := mk {
  task : string;
  priority : Priority;
  start_time : datetime;
  end_time : datetime;
  duration : Z
}.
End Slot.

Definition priority_order (p : Priority) : Z :=
  match p with High => 1 | Medium => 2 | Low => 3 end.

Definition time_allocation (p : Priority) : Z :=
  match p with High => 60 | Medium => 45 | Low => 30 end.

(** [list.sort(key=...)] is a stable sort on the keys.  It is modelled by a
    stable insertion sort: an element goes in front of the first element whose
    key is not smaller than its own. *)
Fixpoint insert_by_key {A} (key : A → Z) (x : A) (l : list A) : list A :=
  match l with
  | [] => [x]
  | y :: l' => if key x <=? key y then x :: l else y :: insert_by_key key x l'
  end.

Definition list_sort {A} (key : A → Z) (l : list A) : list A :=
  foldr (insert_by_key key) [] l.

(** One iteration of the [for task in today_tasks] loop; the loop state is
    the pair of [timetable] and [current_time]. *)
Definition allocate (st : list Slot.t * datetime) (task : Task.t) : list Slot.t * datetime :=
  let '(timetable, current_time) := st in
  let task_time := time_allocation (Task.priority task) in
  let start_time := current_time in
  let end_time := start_time + timedelta_minutes task_time in
  (timetable ++ [Slot.mk (Task.description task) (Task.priority task)
                         start_time end_time task_time],
   end_time).

Definition due_and_open (today : date) (task : Task.t) : Prop :=
  Task.due_date task = today ∧ Task.completed task = false.

Global Instance due_and_open_dec today task : Decision (due_and_open today task).
Proof. unfold due_and_open. apply _. Defined.

Definition generate_timetable (now0 now1 : datetime) (tasks : list Task.t)
    : option (list Slot.t) :=
  let today := date_of now0 in
  let today_tasks := filter (due_and_open today) tasks in
  match today_tasks with
  | [] => None
  | _ =>
      let today_tasks := list_sort (λ x, priority_order (Task.priority x)) today_tasks in
      let current_time := now1 in
      Some (fst (foldl allocate ([], current_time) today_tasks))
  end.

(** ** Offline trainer ([train.py]) *)

(** The rows of [tasks_dataset.csv] after [pd.to_datetime]: the exported task
    columns. *)
Definition trainer_features (df : list Task.t) : list (Z * Z * Z * Z) :=
  zip_with (λ row code,
      (days_to_due row, hour_of (Task.created_at row),
       dayofweek (Task.created_at row), code))
    df (le_fit_transform (Task.priority <$> df)).

Definition trainer_target (df : list Task.t) : list Z :=
  (λ row, if Task.completed row then 1 else 0) <$> df.

(** [a[idx]] for an index array *)
Definition take_rows {A} (a : list A) (idx : list nat) : list A :=
  omap (λ i, a !! i) idx.

Section Split.
(** [np.random.RandomState(seed).permutation(n)] *)
Variable permutation : Z → nat → list nat.

(** [sklearn.model_selection.train_test_split(X, y, test_size=..,
    random_state=..)] with its defaults [shuffle=True], [stratify=None],
    [train_size=None]: the test rows are the first [ceil(test_size * n)]
    indices of one permutation, the training rows are all the others.
    [None] stands for the [ValueError] raised on inconsistent lengths or on
    an empty training set. *)
Definition train_test_split {A B} (X : list A) (y : list B) (test_size : Q)
    (random_state : Z) : option (list A * list A * list B * list B) :=
  let n_samples := length X in
  let n_test := Z.to_nat (Qceiling (test_size * inject_Z (Z.of_nat n_samples))) in
  let n_train := (n_samples - n_test)%nat in
  if decide (length y = n_samples ∧ n_train ≠ 0%nat) then
    let p := permutation random_state n_samples in
    let ind_test := take n_test p in
    let ind_train := take n_train (drop n_test p) in
    Some (take_rows X ind_train, take_rows X ind_test,
          take_rows y ind_train, take_rows y ind_test)
  else None.

(** [X_train, X_test, y_train, y_test = train_test_split(X, y,
    test_size=0.2, random_state=42)] *)
Definition trainer_split (df : list Task.t) :=
  train_test_split (trainer_features df) (trainer_target df) (2 # 10) 42.

(** [RandomForestClassifier(n_estimators=100, random_state=42).fit(X, y)],
    as the fitted classifier's [predict]. *)
Variable random_forest_fit : list (Z * Z * Z * Z) → list Z → (Z * Z * Z * Z → Z).

(** The script after loading the CSV: the split, then the fit on the training
    part, then the prediction on the test part.  The result is the classifier
    (dumped to [task_completion_model.pkl]) and the two columns handed to
    [classification_report]. *)
Definition trainer (df : list Task.t)
    : option ((Z * Z * Z * Z → Z) * list Z * list Z) :=
  match trainer_split df with
  | Some (X_train, X_test, y_train, y_test) =>
      let clf := random_forest_fit X_train y_train in
      let y_pred := clf <$> X_test in
      Some (clf, y_test, y_pred)
  | None => None
  end.
End Split.

(** The number of labels of class [c]. *)
Definition count_class (c : Z) (y : list Z) : Z :=
  Z.of_nat (length (filter (λ v, v = c) y)).

(** Follows the specification's words ("stratified ... split"): every class
    keeps its share of the data in the test part, up to rounding to a
    neighbouring integer. *)
Definition stratified (y y_test : list Z) : Prop :=
  ∀ c : Z,
    Z.abs (count_class c y_test * Z.of_nat (length y)
           - count_class c y * Z.of_nat (length y_test))
    < Z.of_nat (length y).

(** ** The same analyses over the Python object store

    The session's [tasks] is a list object holding references to task dicts;
    the analysis functions receive the reference.  The store below keeps the
    objects the three analyses touch, so that what they mutate (their own fresh
    lists, the timetable, the data frame) is told apart from what they only
    read (the session list and its dicts). *)
Module Imp.

Abbreviation loc := nat.

Inductive obj :=
  | ODict (task : Task.t)                               (* a task dict *)
  | OList (items : list loc)                            (* a list of task dicts *)
  | OTimetable (slots : list Slot.t)                    (* the list of slot dicts *)
  | OFrame (rows : list Feat.t) (proba : option (list float)).  (* a DataFrame *)

Record world := World {
  heap : gmap loc obj;
  page : list notice          (* what has been written to the page so far *)
}.

(** Computations over the store; [None] is a Python exception that nothing
    catches. *)
Definition M (A : Type) : Type := world → option (A * world).

Global Instance M_ret : MRet M := λ A x w, Some (x, w).
Global Instance M_bind : MBind M := λ A B f m w,
  match m w with
  | Some (x, w') => f x w'
  | None => None
  end.

Definition raise {A} : M A := λ _, None.

Definition alloc (o : obj) : M loc := λ w,
  let l := fresh (dom (heap w)) in
  Some (l, World (<[l := o]> (heap w)) (page w)).

Definition load (l : loc) : M obj := λ w,
  match heap w !! l with
  | Some o => Some (o, w)
  | None => None
  end.

Definition store (l : loc) (o : obj) : M unit := λ w,
  match heap w !! l with
  | Some _ => Some ((), World (<[l := o]> (heap w)) (page w))
  | None => None
  end.

Definition st_write (n : notice) : M unit := λ w,
  Some ((), World (heap w) (page w ++ [n])).

Definition load_dict (l : loc) : M Task.t :=
  o ← load l; match o with ODict task => mret task | _ => raise end.

Definition load_list (l : loc) : M (list loc) :=
  o ← load l; match o with OList items => mret items | _ => raise end.

(** The loop of a list comprehension [[x for x in items if p(x)]]. *)
Fixpoint select (p : Task.t → bool) (items : list loc) : M (list loc) :=
  match items with
  | [] => mret []
  | r :: rest =>
      task ← load_dict r;
      kept ← select p rest;
      mret (if p task then r :: kept else kept)
  end.

(** [[x for x in tasks if p(x)]]: a fresh list object sharing the dicts. *)
Definition comprehension (p : Task.t → bool) (tasks : loc) : M loc :=
  items ← load_list tasks;
  kept ← select p items;
  alloc (OList kept).

(** [sum(1 for x in items if p(x))] *)
Fixpoint count_if (p : Task.t → bool) (items : list loc) : M Z :=
  match items with
  | [] => mret 0
  | r :: rest =>
      task ← load_dict r;
      n ← count_if p rest;
      mret (if p task then 1 + n else n)
  end.

Definition analyze_daily_productivity (now0 now1 : datetime) (tasks : loc)
    : M (option loc * option Q * option bool) :=
  let today := date_of now0 in
  today_tasks ← comprehension (λ task, bool_decide (Task.due_date task = today)) tasks;
  items ← load_list today_tasks;
  match items with
  | [] => mret (None, None, None)
  | _ =>
      completed_today ← count_if Task.completed items;
      let total_today := Z.of_nat (length items) in
      let completion_rate :=
        if 0 <? total_today
        then float_mul (int_truediv completed_today total_today) 100
        else 0%Q in
      let avg_task_time := 30 in
      let remaining_tasks := total_today - completed_today in
      let estimated_time_needed := remaining_tasks * avg_task_time in
      let current_hour := hour_of now1 in
      let remaining_hours := 24 - current_hour in
      let can_complete := estimated_time_needed <=? remaining_hours * 60 in
      mret (Some today_tasks, Some completion_rate, Some can_complete)
  end.

(** [l.sort(key=...)]: the keys are read from the dicts, the list object
    [l] is overwritten with its references in sorted order. *)
Fixpoint keyed (key : Task.t → Z) (items : list loc) : M (list (Z * loc)) :=
  match items with
  | [] => mret []
  | r :: rest =>
      task ← load_dict r;
      ks ← keyed key rest;
      mret ((key task, r) :: ks)
  end.

Definition sort_in_place (key : Task.t → Z) (l : loc) : M unit :=
  items ← load_list l;
  ks ← keyed key items;
  store l (OList (snd <$> list_sort fst ks)).

Definition append_slot (timetable : loc) (slot : Slot.t) : M unit :=
  o ← load timetable;
  match o with
  | OTimetable slots => store timetable (OTimetable (slots ++ [slot]))
  | _ => raise
  end.

(** The [for task in today_tasks] loop. *)
Fixpoint schedule (timetable : loc) (items : list loc) (current_time : datetime)
    : M unit :=
  match items with
  | [] => mret ()
  | r :: rest =>
      task ← load_dict r;
      let task_time := time_allocation (Task.priority task) in
      let start_time := current_time in
      let end_time := start_time + timedelta_minutes task_time in
      append_slot timetable
        (Slot.mk (Task.description task) (Task.priority task)
                 start_time end_time task_time);;
      schedule timetable rest end_time
  end.

Definition generate_timetable (now0 now1 : datetime) (tasks : loc) : M (option loc) :=
  let today := date_of now0 in
  today_tasks ← comprehension (λ task, bool_decide (due_and_open today task)) tasks;
  items ← load_list today_tasks;
  match items with
  | [] => mret None
  | _ =>
      sort_in_place (λ x, priority_order (Task.priority x)) today_tasks;;
      let current_time := now1 in
      timetable ← alloc (OTimetable []);
      items ← load_list today_tasks;
      schedule timetable items current_time;;
      mret (Some timetable)
  end.

Fixpoint load_dicts (items : list loc) : M (list Task.t) :=
  match items with
  | [] => mret []
  | r :: rest =>
      task ← load_dict r;
      ts ← load_dicts rest;
      mret (task :: ts)
  end.

Section Analysis.
Variable random_forest : list (Z * Z) → list Z → string + (Z * Z → float).

(** [pd.DataFrame(tasks)] copies the dict values into a fresh frame; all
    later column assignments write to that frame. *)
Definition analyze_productivity (tasks : loc) : M (option loc) :=
  items ← load_list tasks;
  match items with
  | [] => mret None
  | _ =>
      rows ← load_dicts items;
      let feats := build_features rows in
      df ← alloc (OFrame feats None);
      let X := feature_vector <$> feats in
      let y := Feat.is_completed <$> feats in
      match random_forest X y with
      | inr predict_proba1 =>
          store df (OFrame feats (Some ((λ f, predict_proba1 (feature_vector f)) <$> feats)));;
          mret (Some df)
      | inl e =>
          st_write (st_error ("Error in productivity analysis: " +:+ e));;
          mret None
      end
  end.
End Analysis.

(** The task list a reference denotes: its dicts, in order. *)
Definition tasks_at (w : world) (tasks : loc) : option (list Task.t) :=
  fst <$> (items ← load_list tasks; load_dicts items) w.

Definition timetable_at (w : world) (l : loc) : option (list Slot.t) :=
  match heap w !! l with Some (OTimetable slots) => Some slots | _ => None end.

Definition frame_at (w : world) (l : loc) : option (list Row.t) :=
  match heap w !! l with
  | Some (OFrame feats (Some ps)) => Some (zip_with Row.mk feats ps)
  | _ => None
  end.

End Imp.

(** ** Vocabulary of the statements *)

(** Order of two elements by their sort keys. *)
Definition key_le {A} (key : A → Z) (a b : A) : Prop := key a ≤ key b.

(** The slots laid out from a start time, one after the other. *)
Fixpoint slots_from (current_time : datetime) (today_tasks : list Task.t) : list Slot.t :=
  match today_tasks with
  | [] => []
  | task :: rest =>
      let task_time := time_allocation (Task.priority task) in
      Slot.mk (Task.description task) (Task.priority task) current_time
              (current_time + timedelta_minutes task_time) task_time
      :: slots_from (current_time + timedelta_minutes task_time) rest
  end.

(** A slot describes a task: its text, its priority, the minutes allotted to
    that priority, and an end time that many minutes after the start. *)
Definition slot_for (task : Task.t) (slot : Slot.t) : Prop :=
  Slot.task slot = Task.description task ∧
  Slot.priority slot = Task.priority task ∧
  Slot.duration slot = time_allocation (Task.priority task) ∧
  Slot.end_time slot = Slot.start_time slot + timedelta_minutes (Slot.duration slot).

(** The task dicts that the references [items] point to, in order. *)
Definition dicts_at (h : gmap nat Imp.obj) (items : list nat) (ts : list Task.t) : Prop :=
  Forall2 (λ r task, h !! r = Some (Imp.ODict task)) items ts.

(** ** Vocabulary for the session *)

(** An "Add Task" click that creates a task. *)
Definition creates (a : action) : Prop :=
  match a with
  | AddTask new_task _ _ _ => truthy new_task = true
  | _ => False
  end.

Global Instance creates_dec a : Decision (creates a).
Proof. destruct a; simpl; apply _. Defined.

Definition added (actions : list action) : nat := length (filter creates actions).

(** Two task values that differ at most in the completion flag. *)
Definition same_identity (t t' : Task.t) : Prop :=
  Task.id t = Task.id t' ∧
  Task.description t = Task.description t' ∧
  Task.due_date t = Task.due_date t' ∧
  Task.priority t = Task.priority t' ∧
  Task.created_at t = Task.created_at t'.

(** What every session keeps true, [n] being the number of tasks created. *)
Definition session_inv (n : nat) (tasks : list Task.t) : Prop :=
  (length tasks ≤ n)%nat ∧
  ∀ i task, tasks !! i = Some task →
    Z.of_nat i + 1 ≤ Task.id task ≤ Z.of_nat n ∧ truthy (Task.description task) = true.

(** ** The task list display ([main], "Your Tasks") *)

(** The "Sort by" select box: "Creation Date", "Due Date", "Priority". *)
Inductive sort_by := CreationDate | DueDate | ByPriority.

(** [show_completed or not task["completed"]] *)
Definition visible (show_completed : bool) (task : Task.t) : Prop :=
  show_completed = true ∨ Task.completed task = false.

Global Instance visible_dec show_completed task : Decision (visible show_completed task).
Proof. unfold visible. apply _. Defined.

(** The displayed list holds the session's dict objects themselves; an object
    is written as its position in the session list together with its value. *)
Definition positioned (tasks : list Task.t) : list (nat * Task.t) :=
  imap (λ i task, (i, task)) tasks.

(** [filtered_tasks] after the comprehension and the sort.  [sort(key=...,
    reverse=True)] orders by descending key and keeps the original order of
    equal keys: a stable sort on the negated key. *)
Definition filtered_tasks (show_completed : bool) (sort_option : sort_by)
    (tasks : list Task.t) : list (nat * Task.t) :=
  let filtered_tasks := filter (λ x, visible show_completed x.2) (positioned tasks) in
  match sort_option with
  | DueDate => list_sort (λ x, Task.due_date x.2) filtered_tasks
  | ByPriority => list_sort (λ x, priority_order (Task.priority x.2)) filtered_tasks
  | CreationDate => list_sort (λ x, - Task.created_at x.2) filtered_tasks
  end.

(** The sort key in use. *)
Definition display_key (sort_option : sort_by) (x : nat * Task.t) : Z :=
  match sort_option with
  | DueDate => Task.due_date x.2
  | ByPriority => priority_order (Task.priority x.2)
  | CreationDate => - Task.created_at x.2
  end.

(** Pressing a form button of the [j]-th displayed task. *)
Definition click (button : nat → action) (show_completed : bool)
    (sort_option : sort_by) (j : nat) (tasks : list Task.t) : list Task.t :=
  match filtered_tasks show_completed sort_option tasks !! j with
  | Some (k, _) => step tasks (button k)
  | None => tasks
  end.

(** The minutes a timetable allots in total. *)
Definition total_minutes (timetable : list Slot.t) : Z :=
  foldr (λ slot acc, Slot.duration slot + acc) 0 timetable.

(** ** The dashboard metrics ([main], "Productivity Analysis") *)

(** The strings of the priority select box. *)
Definition priority_label (p : Priority) : string :=
  match p with Low => "Low" | Medium => "Medium" | High => "High" end.

(** The code a priority gets from an encoder fitted on [col]: the number of
    distinct labels of [col] that sort before it. *)
Definition code_of (col : list Priority) (p : Priority) : Z :=
  match p with
  | High => 0
  | Low => if decide (High ∈ col) then 1 else 0
  | Medium => (if decide (High ∈ col) then 1 else 0) + (if decide (Low ∈ col) then 1 else 0)
  end.

Definition row_priority (r : Row.t) : Priority := Task.priority (Feat.task (Row.feat r)).

(** [len(df)] *)
Definition total_tasks (df : list Row.t) : Z := Z.of_nat (length df).

(** [df['is_completed'].sum()] *)
Definition completed_tasks (df : list Row.t) : Z :=
  foldr (λ r acc, Feat.is_completed (Row.feat r) + acc) 0 df.

(** [(completed_tasks / total_tasks) * 100]: numpy converts the [int64] sum
    and the length to [float64], divides, and multiplies by 100. *)
Definition completion_rate (df : list Row.t) : Q :=
  float_mul (float_div (float_of_int (completed_tasks df)) (float_of_int (total_tasks df)))
            100.

(** [df.groupby('priority')]: one group per priority that occurs, the groups
    in the sorted order of their labels, the rows of a group in frame order. *)
Definition groupby_priority (df : list Row.t) : list (Priority * list Row.t) :=
  (λ p, (p, filter (λ r, row_priority r = p) df)) <$> le_fit (row_priority <$> df).

(** [df.groupby('priority')['is_completed'].mean()]: the mean of a group
    is the [float64] sum of its 0/1 column divided by the size of the
    group. *)
Definition priority_stats (df : list Row.t) : list (Priority * Q) :=
  (λ pg, (pg.1, float_div (float_of_int (completed_tasks pg.2))
                          (float_of_int (total_tasks pg.2))))
    <$> groupby_priority df.

(** The 'Task Count' column: [df.groupby('priority').agg({'is_completed':
    ['count', ...]})] *)
Definition task_count (df : list Row.t) : list (Priority * Z) :=
  (λ pg, (pg.1, total_tasks pg.2)) <$> groupby_priority df.

(** What a feature row says about its task. *)
Definition row_of (col : list Priority) (predict_proba1 : Z * Z → float)
    (task : Task.t) (r : Row.t) : Prop :=
  Feat.task (Row.feat r) = task ∧
  Feat.days_to_due (Row.feat r) = days_to_due task ∧
  Feat.is_completed (Row.feat r) = (if Task.completed task then 1 else 0) ∧
  Feat.priority_encoded (Row.feat r) = code_of col (Task.priority task) ∧
  Row.completion_probability r
  = predict_proba1 (days_to_due task, code_of col (Task.priority task)).

(** * Properties *)

(** ** The task session *)

Lemma ids_app tasks tasks' : ids (tasks ++ tasks') = ids tasks ++ ids tasks'.
Proof. apply fmap_app. Qed.

Lemma ids_alter_toggle k tasks : ids (alter toggle k tasks) = ids tasks.
Proof.
  unfold ids. apply list_eq. intros j. rewrite !list_lookup_fmap.
  destruct (decide (k = j)) as [->|Hne].
  - rewrite list_lookup_alter_eq. by destruct (tasks !! j).
  - by rewrite list_lookup_alter_ne.
Qed.

(** The id given by "Add Task" is the length of the list plus one. *)
Lemma add_task_id new_task due_date priority now tasks :
  truthy new_task = true →
  ids (fst (add_task new_task due_date priority now tasks))
  = ids tasks ++ [Z.of_nat (length tasks) + 1].
Proof. intros H. unfold add_task. rewrite H. simpl. by rewrite ids_app. Qed.

(** As long as nothing is deleted the ids are 1, 2, ..., n. *)
Lemma ids_step_without_delete tasks a :
  ¬ is_delete a →
  ids tasks = seqZ 1 (Z.of_nat (length tasks)) →
  ids (step tasks a) = seqZ 1 (Z.of_nat (length (step tasks a))).
Proof.
  intros Hd Hinv. destruct a as [new_task due_date priority now|k|k]; simpl in *.
  - unfold add_task. destruct (truthy new_task); simpl; [|done].
    rewrite ids_app, length_app, Hinv. simpl.
    replace (Z.of_nat (length tasks + 1)) with (Z.of_nat (length tasks) + 1) by lia.
    rewrite seqZ_app by lia. f_equal.
    rewrite Z.add_comm. reflexivity.
  - by rewrite ids_alter_toggle, length_alter.
  - tauto.
Qed.

Lemma ids_run_without_delete actions :
  Forall (λ a, ¬ is_delete a) actions →
  ids (run actions) = seqZ 1 (Z.of_nat (length (run actions))).
Proof.
  unfold run. induction actions as [|a actions IH] using rev_ind; intros H.
  - reflexivity.
  - apply Forall_app in H as [H1 H2]. rewrite foldl_app. simpl.
    apply ids_step_without_delete; [by inversion H2 | by apply IH].
Qed.

Lemma ids_unique_without_delete actions :
  Forall (λ a, ¬ is_delete a) actions → NoDup (ids (run actions)).
Proof. intros H. rewrite ids_run_without_delete by done. apply NoDup_seqZ. Qed.

(** C1.  The ids of the session are not unique once a task has been deleted:
    after adding "a" and "b", deleting "a" and adding "c", the list has length
    one when "c" is added, so "c" receives the id 2 that "b" still carries; and
    after adding "a", deleting it and adding "b", the id 1 is given again. *)
Theorem ids_collide_after_delete :
  let actions := [AddTask "a" 738000 High 0; AddTask "b" 738000 High 1;
                  Delete 0; AddTask "c" 738000 Low 2] in
  ids (run actions) = [2; 2] ∧
  ¬ NoDup (ids (run actions)) ∧
  ids (run [AddTask "a" 738000 High 0]) = [1] ∧
  ids (run [AddTask "a" 738000 High 0; Delete 0]) = [] ∧
  ids (run [AddTask "a" 738000 High 0; Delete 0; AddTask "b" 738000 High 1]) = [1].
Proof.
  simpl. repeat split; try reflexivity.
  change (ids _) with [2; 2]. intros H. inversion H as [|x l Hin _]; subst.
  apply Hin. left.
Qed.

(** C8.  "Add Task" with an empty description shows a warning and leaves the
    task list as it was; with a non-empty description it appends one task that
    is not completed, was created at the current time and carries the entered
    description, due date and priority. *)
Theorem add_task_empty_rejected due_date priority now tasks :
  add_task "" due_date priority now tasks
    = (tasks, st_warning "Please enter a task description") ∧
  step tasks (AddTask "" due_date priority now) = tasks ∧
  ∀ c s, ∃ task,
    add_task (String c s) due_date priority now tasks
      = (tasks ++ [task], st_success "Task added successfully!") ∧
    step tasks (AddTask (String c s) due_date priority now) = tasks ++ [task] ∧
    Task.completed task = false ∧
    Task.created_at task = now ∧
    Task.description task = String c s ∧
    Task.due_date task = due_date ∧
    Task.priority task = priority.
Proof.
  repeat split. intros c s. eexists. repeat split.
Qed.

(** ** Deleting *)

Lemma filter_sublist_max {A} (P : A → Prop) `{!∀ x, Decision (P x)} (l k : list A) :
  l `sublist_of` k → Forall P l → l `sublist_of` filter P k.
Proof.
  induction 1 as [|x l k _ IH|x l k _ IH]; intros HP.
  - constructor.
  - apply Forall_cons in HP as [Hx HP]. rewrite filter_cons_True by done.
    constructor. by apply IH.
  - rewrite filter_cons. destruct (decide (P x)); [constructor|]; by apply IH.
Qed.

(** C10.  Deleting by id leaves no task with that id (however many carried
    it), and what is left is the original list with those tasks struck out:
    it is a subsequence of the original, and it contains every subsequence of
    the original that avoids the id, so the remaining tasks keep their
    multiplicity and relative order.  The delete button of the task at
    position [k] deletes by that task's id. *)
Theorem delete_task_removes_all i tasks :
  Forall (λ t, Task.id t ≠ i) (delete_task i tasks) ∧
  delete_task i tasks `sublist_of` tasks ∧
  (∀ l, l `sublist_of` tasks → Forall (λ t, Task.id t ≠ i) l →
        l `sublist_of` delete_task i tasks) ∧
  (∀ k task, tasks !! k = Some task →
        step tasks (Delete k) = delete_task (Task.id task) tasks).
Proof.
  unfold delete_task. repeat split.
  - apply Forall_forall. intros t Ht. by apply list_elem_of_filter in Ht as [? _].
  - apply sublist_filter.
  - intros l Hl HP. by apply filter_sublist_max.
  - intros k task Hk. simpl. by rewrite Hk.
Qed.

(** Two tasks that share an id go with one click; the others stay in order. *)
Example delete_shared_id :
  let t1 := Task.mk 2 "b" 738000 High 1 false in
  let t2 := Task.mk 3 "x" 738000 Medium 5 true in
  let t3 := Task.mk 2 "c" 738000 Low 2 false in
  let t4 := Task.mk 1 "y" 738000 Low 7 false in
  step [t1; t2; t3; t4] (Delete 0) = [t2; t4].
Proof. reflexivity. Qed.

(** ** Days to due *)

Lemma created_at_split (dt : datetime) :
  dt = to_datetime (date_of dt) + dt mod US_PER_DAY ∧ 0 ≤ dt mod US_PER_DAY < US_PER_DAY.
Proof.
  unfold to_datetime, date_of. split.
  - rewrite Z.mul_comm. apply Z.div_mod. unfold US_PER_DAY. lia.
  - apply Z.mod_pos_bound. unfold US_PER_DAY. lia.
Qed.

Lemma midnight_iff (dt : datetime) :
  dt = to_datetime (date_of dt) ↔ dt mod US_PER_DAY = 0.
Proof. destruct (created_at_split dt) as [H _]. lia. Qed.

(** C2, as stated, fails: a task created at 10:00 on day D and due on day
    D+5 has [days_to_due] 4, and due on day D-3 it has -4. *)
Lemma days_to_due_not_calendar_difference :
  ¬ ∀ task D,
      date_of (Task.created_at task) = D →
      (Task.due_date task = D + 5 → days_to_due task = 5) ∧
      (Task.due_date task = D - 3 → days_to_due task = -3).
Proof.
  intros H.
  destruct (H (Task.mk 1 "report" 738005 High (738000 * US_PER_DAY + 10 * US_PER_HOUR) false)
              738000 eq_refl) as [H5 _].
  specialize (H5 eq_refl). vm_compute in H5. discriminate.
Qed.

(** C2, amended.  [days_to_due] is the floor of the signed difference between
    midnight of the due date and the creation timestamp, in days, with no
    clamping.  For a task created on day D this is the calendar difference
    [due_date - D] when the task was created exactly at midnight, and one less
    otherwise; so a due date D+5 gives 5 at midnight and 4 at any later time of
    the day, and a due date D-3 gives -3 and -4. *)
Theorem days_to_due_floor task :
  let D := date_of (Task.created_at task) in
  let delta := to_datetime (Task.due_date task) - Task.created_at task in
  (days_to_due task * US_PER_DAY ≤ delta < (days_to_due task + 1) * US_PER_DAY) ∧
  days_to_due task
    = Task.due_date task - D
      - (if decide (Task.created_at task = to_datetime D) then 0 else 1) ∧
  (Task.due_date task = D + 5 →
     days_to_due task = if decide (Task.created_at task = to_datetime D) then 5 else 4) ∧
  (Task.due_date task = D - 3 →
     days_to_due task = if decide (Task.created_at task = to_datetime D) then -3 else -4).
Proof.
  intros D delta.
  assert (HU : 0 < US_PER_DAY) by (unfold US_PER_DAY; lia).
  assert (Hfloor : days_to_due task * US_PER_DAY ≤ delta
                   < (days_to_due task + 1) * US_PER_DAY).
  { unfold days_to_due, dt_days. fold delta.
    pose proof (Z.div_mod delta US_PER_DAY ltac:(lia)).
    pose proof (Z.mod_pos_bound delta US_PER_DAY HU). lia. }
  assert (Hval : days_to_due task
    = Task.due_date task - D
      - (if decide (Task.created_at task = to_datetime D) then 0 else 1)).
  { destruct (created_at_split (Task.created_at task)) as [Hc Hr]. fold D in Hc.
    unfold days_to_due, dt_days. symmetry.
    destruct (decide (Task.created_at task = to_datetime D)) as [Heq|Hne].
    - apply (Z.div_unique_pos _ _ _ 0); [lia|]. rewrite Heq. unfold to_datetime. lia.
    - apply (Z.div_unique_pos _ _ _ (US_PER_DAY - Task.created_at task mod US_PER_DAY)).
      + assert (Task.created_at task mod US_PER_DAY ≠ 0); [|lia].
        intros H0. apply Hne. unfold D. by apply midnight_iff.
      + unfold to_datetime in *. lia. }
  split; [exact Hfloor|]. split; [exact Hval|].
  split; intros Hdue; rewrite Hval, Hdue; case_decide; lia.
Qed.

(** The amended statement at a task created at 10:00 and at one created at
    midnight. *)
Lemma days_to_due_floor_witness :
  days_to_due (Task.mk 1 "report" 738005 High (738000 * US_PER_DAY + 10 * US_PER_HOUR) false) = 4 ∧
  days_to_due (Task.mk 2 "call" 737997 Low (738000 * US_PER_DAY) false) = -3.
Proof.
  split.
  - apply (proj1 (proj2 (proj2 (days_to_due_floor
      (Task.mk 1 "report" 738005 High (738000 * US_PER_DAY + 10 * US_PER_HOUR) false))))).
    reflexivity.
  - apply (proj2 (proj2 (proj2 (days_to_due_floor
      (Task.mk 2 "call" 737997 Low (738000 * US_PER_DAY) false))))).
    reflexivity.
Defined.

(** ** Stable sorting by key *)

Section Sorting.
Context {A : Type} (key : A → Z).

Lemma insert_by_key_perm x l : insert_by_key key x l ≡ₚ x :: l.
Proof.
  induction l as [|y l IH]; simpl; [done|].
  destruct (key x <=? key y); [done|]. by rewrite IH, Permutation_swap.
Qed.

Lemma list_sort_perm l : list_sort key l ≡ₚ l.
Proof.
  induction l as [|x l IH]; simpl; [done|].
  by rewrite insert_by_key_perm, IH.
Qed.

Lemma insert_by_key_sorted x l :
  StronglySorted (key_le key) l → StronglySorted (key_le key) (insert_by_key key x l).
Proof.
  induction 1 as [|y l Hl IH Hy]; simpl.
  - repeat constructor.
  - destruct (Z.leb_spec (key x) (key y)) as [Hxy|Hxy].
    + constructor; [by constructor|]. constructor; [done|].
      eapply Forall_impl; [exact Hy|]. unfold key_le. intros z Hz. lia.
    + constructor; [done|]. rewrite insert_by_key_perm.
      constructor; [unfold key_le; lia | done].
Qed.

Lemma list_sort_sorted l : StronglySorted (key_le key) (list_sort key l).
Proof.
  induction l as [|x l IH]; simpl; [constructor|]. by apply insert_by_key_sorted.
Qed.

(** Inserting never overtakes an element with the same key. *)
Lemma insert_by_key_stable c x l :
  filter (λ a, key a = c) (insert_by_key key x l)
  = filter (λ a, key a = c) (x :: l).
Proof.
  induction l as [|y l IH]; simpl; [done|].
  destruct (Z.leb_spec (key x) (key y)) as [Hxy|Hxy]; [done|].
  rewrite (filter_cons _ y), IH, !(filter_cons _ x), (filter_cons _ y).
  repeat case_decide; try done. lia.
Qed.

Lemma list_sort_stable c l :
  filter (λ a, key a = c) (list_sort key l) = filter (λ a, key a = c) l.
Proof.
  induction l as [|x l IH]; simpl; [done|].
  by rewrite insert_by_key_stable, !(filter_cons _ x), IH.
Qed.
End Sorting.

(** ** The timetable *)

Lemma foldl_allocate timetable current_time today_tasks :
  fst (foldl allocate (timetable, current_time) today_tasks)
  = timetable ++ slots_from current_time today_tasks.
Proof.
  revert timetable current_time.
  induction today_tasks as [|task rest IH]; intros timetable current_time; simpl.
  - by rewrite app_nil_r.
  - rewrite IH, <- app_assoc. reflexivity.
Qed.

Lemma slots_from_slot_for current_time today_tasks :
  Forall2 slot_for today_tasks (slots_from current_time today_tasks).
Proof.
  revert current_time. induction today_tasks as [|task rest IH]; intros current_time; simpl.
  - constructor.
  - constructor; [by repeat split | apply IH].
Qed.

Lemma slots_from_head current_time today_tasks slot :
  slots_from current_time today_tasks !! 0%nat = Some slot →
  Slot.start_time slot = current_time.
Proof. destruct today_tasks; simpl; [done|]. by intros [= <-]. Qed.

Lemma slots_from_contiguous current_time today_tasks i slot slot' :
  slots_from current_time today_tasks !! i = Some slot →
  slots_from current_time today_tasks !! S i = Some slot' →
  Slot.start_time slot' = Slot.end_time slot.
Proof.
  revert current_time i. induction today_tasks as [|task rest IH]; intros current_time i; simpl.
  - done.
  - destruct i as [|i]; simpl.
    + intros [= <-] H. by apply slots_from_head in H.
    + apply IH.
Qed.

(** C4.  The timetable is built from the tasks due today and not completed.
    When there is none the result is absent.  Otherwise the slots follow these
    tasks sorted stably by priority, High before Medium before Low (a
    rearrangement in non-decreasing rank in which the tasks of each priority
    keep their original order); each slot carries its task's description and
    priority and lasts 60, 45 or 30 minutes for High, Medium or Low; the first
    slot starts at the start time and every later slot starts when the slot
    before it ends. *)
Theorem generate_timetable_schedule now0 now1 tasks :
  let today_tasks := filter (due_and_open (date_of now0)) tasks in
  let rank := λ task, priority_order (Task.priority task) in
  (priority_order High < priority_order Medium < priority_order Low) ∧
  (time_allocation High = 60 ∧ time_allocation Medium = 45 ∧ time_allocation Low = 30) ∧
  ((today_tasks = [] ∧ generate_timetable now0 now1 tasks = None) ∨
   ∃ sorted timetable,
     generate_timetable now0 now1 tasks = Some timetable ∧
     today_tasks ≠ [] ∧
     sorted ≡ₚ today_tasks ∧
     StronglySorted (key_le rank) sorted ∧
     (∀ p, filter (λ task, Task.priority task = p) sorted
           = filter (λ task, Task.priority task = p) today_tasks) ∧
     Forall2 slot_for sorted timetable ∧
     (∀ slot, timetable !! 0%nat = Some slot → Slot.start_time slot = now1) ∧
     (∀ i slot slot', timetable !! i = Some slot → timetable !! S i = Some slot' →
        Slot.start_time slot' = Slot.end_time slot)).
Proof.
  intros today_tasks rank. split; [by compute|]. split; [done|].
  unfold generate_timetable. fold today_tasks. fold rank.
  destruct today_tasks as [|task rest] eqn:Hts; [by left|]. right.
  rewrite <- Hts. exists (list_sort rank today_tasks), (slots_from now1 (list_sort rank today_tasks)).
  split; [by rewrite foldl_allocate|].
  split; [by rewrite Hts|].
  split; [apply list_sort_perm|].
  split; [apply list_sort_sorted|].
  split.
  { intros p.
    rewrite !(list_filter_iff (λ task, Task.priority task = p) (λ task, rank task = priority_order p)).
    - apply list_sort_stable.
    - intros x. unfold rank. destruct (Task.priority x), p; compute; split; congruence.
    - intros x. unfold rank. destruct (Task.priority x), p; compute; split; congruence. }
  split; [apply slots_from_slot_for|].
  split; [apply slots_from_head | apply slots_from_contiguous].
Qed.

(** The specification's example: High, Low, Medium, all due today and open. *)
Example generate_timetable_high_low_medium :
  let T := 738000 * US_PER_DAY + 9 * US_PER_HOUR in
  let task p d := Task.mk 0 d 738000 p (737999 * US_PER_DAY) false in
  generate_timetable T T [task High "h"; task Low "l"; task Medium "m"]
  = Some [Slot.mk "h" High T (T + 60 * US_PER_MINUTE) 60;
          Slot.mk "m" Medium (T + 60 * US_PER_MINUTE) (T + 105 * US_PER_MINUTE) 45;
          Slot.mk "l" Low (T + 105 * US_PER_MINUTE) (T + 135 * US_PER_MINUTE) 30].
Proof. reflexivity. Qed.

(** ** Binary64 rounding *)

Lemma two_pow_pos (e : Z) : (0 < 2 ^ e)%Q.
Proof. by apply Qpower_0_lt. Qed.

Lemma two_pow_le (a b : Z) : a <= b → (2 ^ a <= 2 ^ b)%Q.
Proof. intros H. by apply Qpower_le_compat_l. Qed.

Lemma two_pow_add (a b : Z) : (2 ^ (a + b) == 2 ^ a * 2 ^ b)%Q.
Proof. by apply Qpower_plus. Qed.

Lemma two_pow_Z (n : Z) : 0 <= n → (inject_Z (2 ^ n) == 2 ^ n)%Q.
Proof. intros H. by rewrite Zpower_Qpower. Qed.

Lemma two_pow_cancel (e : Z) : (2 ^ (- e) * 2 ^ e == 1)%Q.
Proof. rewrite <- two_pow_add. by replace (- e + e) with 0 by lia. Qed.

Lemma Q_as_quotient (x : Q) : (x * inject_Z (Z.pos (Qden x)) == inject_Z (Qnum x))%Q.
Proof. destruct x as [n d]. unfold Qeq. simpl. lia. Qed.

Lemma ilog2_spec (x : Q) :
  (0 < x)%Q → (2 ^ ilog2 x <= x)%Q ∧ (x < 2 ^ (ilog2 x + 1))%Q.
Proof.
  intros Hx.
  assert (Hn : 0 < Qnum x) by (destruct x; unfold Qlt in Hx; simpl in *; lia).
  pose proof (Z.log2_spec _ Hn) as [Hn1 Hn2].
  pose proof (Z.log2_spec (Z.pos (Qden x)) ltac:(lia)) as [Hd1 Hd2].
  pose proof (Z.log2_nonneg (Qnum x)) as Hln.
  pose proof (Z.log2_nonneg (Z.pos (Qden x))) as Hld.
  set (ln := Z.log2 (Qnum x)) in *. set (ld := Z.log2 (Z.pos (Qden x))) in *.
  assert (Hd : (0 < inject_Z (Z.pos (Qden x)))%Q) by done.
  assert (Hup : (x < 2 ^ (ln - ld + 1))%Q).
  { apply (Qmult_lt_r _ _ _ Hd). rewrite Q_as_quotient.
    eapply Qlt_le_trans with (2 ^ (ln - ld + 1) * 2 ^ ld)%Q.
    - rewrite <- two_pow_add. replace (ln - ld + 1 + ld) with (Z.succ ln) by lia.
      rewrite <- two_pow_Z by lia. by rewrite <- Zlt_Qlt.
    - apply Qmult_le_l; [apply two_pow_pos|].
      rewrite <- two_pow_Z by lia. by rewrite <- Zle_Qle. }
  assert (Hlo : (2 ^ (ln - ld - 1) <= x)%Q).
  { apply (Qmult_le_r _ _ _ Hd). rewrite Q_as_quotient.
    eapply Qle_trans with (2 ^ (ln - ld - 1) * 2 ^ (Z.succ ld))%Q.
    - apply Qmult_le_l; [apply two_pow_pos|].
      rewrite <- two_pow_Z by lia. rewrite <- Zle_Qle. lia.
    - rewrite <- two_pow_add. replace (ln - ld - 1 + Z.succ ld) with ln by lia.
      rewrite <- two_pow_Z by lia. by rewrite <- Zle_Qle. }
  unfold ilog2. fold ln ld.
  destruct (Qle_bool (2 ^ (ln - ld)) x) eqn:Hb.
  - apply Qle_bool_iff in Hb. done.
  - split; [done|]. replace (ln - ld - 1 + 1) with (ln - ld) by lia.
    apply Qnot_le_lt. intros H. apply Qle_bool_iff in H. congruence.
Qed.

Lemma ilog2_le (x : Q) (j : Z) : (0 < x)%Q → (x < 2 ^ (j + 1))%Q → ilog2 x <= j.
Proof.
  intros Hx Hj. destruct (ilog2_spec x Hx) as [Hlo _].
  assert (H : (2 ^ ilog2 x < 2 ^ (j + 1))%Q) by (eapply Qle_lt_trans; eauto).
  apply Qpower_lt_compat_l_inv in H; [lia|done].
Qed.

Lemma ilog2_ge (x : Q) (j : Z) : (2 ^ j <= x)%Q → j <= ilog2 x.
Proof.
  intros Hj.
  assert (Hx : (0 < x)%Q) by (eapply Qlt_le_trans; [apply two_pow_pos|done]).
  destruct (ilog2_spec x Hx) as [_ Hup].
  assert (H : (2 ^ j < 2 ^ (ilog2 x + 1))%Q) by (eapply Qle_lt_trans; eauto).
  apply Qpower_lt_compat_l_inv in H; [lia|done].
Qed.

Lemma round_half_even_le (s : Q) (N : Z) :
  (s < inject_Z N + (1 # 2))%Q → round_half_even s <= N.
Proof.
  intros Hs. unfold round_half_even.
  pose proof (Qfloor_le s) as Hf.
  assert (HfN : Qfloor s <= N).
  { assert (H : (inject_Z (Qfloor s) < inject_Z (N + 1))%Q).
    { eapply Qle_lt_trans; [done|]. eapply Qlt_trans; [done|].
      rewrite inject_Z_plus. apply Qplus_lt_r. done. }
    rewrite <- Zlt_Qlt in H. lia. }
  destruct (decide (Qfloor s = N)) as [HN|HN].
  - assert (Hlt : (s - inject_Z (Qfloor s) < 1 # 2)%Q).
    { rewrite HN. lra. }
    destruct (_ ?= _)%Q eqn:Hc; [apply Qeq_alt in Hc; lra|lia|apply Qgt_alt in Hc; lra].
  - destruct (_ ?= _)%Q; [destruct (Z.even _)|..]; lia.
Qed.

Lemma round_half_even_ge (s : Q) (N : Z) :
  (inject_Z N <= s)%Q → N <= round_half_even s.
Proof.
  intros Hs. unfold round_half_even.
  assert (HfN : N <= Qfloor s).
  { assert (H : (inject_Z N < inject_Z (Qfloor s + 1))%Q).
    { eapply Qle_lt_trans; [done|]. apply Qlt_floor. }
    rewrite <- Zlt_Qlt in H. lia. }
  destruct (_ ?= _)%Q; [destruct (Z.even _)|..]; lia.
Qed.

(** The value of a positive argument, before normalisation. *)
Lemma binary64_pos (x : Q) :
  (0 < x)%Q →
  (binary64 x ==
     inject_Z (round_half_even (x * 2 ^ (- Z.max (ilog2 x - 52) (-1074))))
     * 2 ^ Z.max (ilog2 x - 52) (-1074))%Q.
Proof.
  intros Hx. unfold binary64.
  destruct x as [[|n|n] d]; try done.
  simpl Qnum. cbv beta iota. unfold binary64_parts. apply Qred_correct.
Qed.

Lemma binary64_nonneg (x : Q) : (0 <= x)%Q → (0 <= binary64 x)%Q.
Proof.
  intros Hx. destruct (Qlt_le_dec 0 x) as [Hpos|Hle].
  - rewrite (binary64_pos x Hpos).
    apply Qmult_le_0_compat; [|apply Qlt_le_weak, two_pow_pos].
    change 0%Q with (inject_Z 0). rewrite <- Zle_Qle.
    apply round_half_even_ge. simpl.
    apply Qmult_le_0_compat; [done|apply Qlt_le_weak, two_pow_pos].
  - assert (H0 : Qnum x = 0) by (destruct x; unfold Qle in *; simpl in *; lia).
    unfold binary64. by rewrite H0.
Qed.

(** Rounding does not step over a value of the grid that lies above the argument. *)
Lemma binary64_le_grid (x : Q) (M eR : Z) :
  (0 < x)%Q → ilog2 x - 52 <= eR → -1074 <= eR →
  (x <= inject_Z M * 2 ^ eR)%Q →
  (binary64 x <= inject_Z M * 2 ^ eR)%Q.
Proof.
  intros Hx He1 He2 Hle. rewrite (binary64_pos x Hx).
  set (e := Z.max (ilog2 x - 52) (-1074)).
  assert (He : e <= eR) by lia.
  assert (Hgrid : (inject_Z M * 2 ^ eR == inject_Z (M * 2 ^ (eR - e)) * 2 ^ e)%Q).
  { rewrite inject_Z_mult, two_pow_Z by lia. rewrite <- Qmult_assoc, <- two_pow_add.
    by replace (eR - e + e) with eR by lia. }
  rewrite Hgrid. apply Qmult_le_compat_r; [|apply Qlt_le_weak, two_pow_pos].
  rewrite <- Zle_Qle. apply round_half_even_le.
  eapply Qle_lt_trans with (inject_Z (M * 2 ^ (eR - e))).
  - apply (Qmult_le_r _ _ (2 ^ e)); [apply two_pow_pos|].
    rewrite <- Hgrid, <- Qmult_assoc, two_pow_cancel, Qmult_1_r. done.
  - rewrite <- (Qplus_0_r (inject_Z _)) at 1. by apply Qplus_lt_r.
Qed.

Lemma binary64_le_1 (x : Q) : (0 <= x <= 1)%Q → (binary64 x <= 1)%Q.
Proof.
  intros [H0 H1]. destruct (Qlt_le_dec 0 x) as [Hpos|Hle].
  - assert (ilog2 x <= 0) by (apply ilog2_le; [done|]; by eapply Qle_lt_trans).
    eapply Qle_trans; [apply (binary64_le_grid x (2 ^ 52) (-52)); [done|lia|lia|]|];
      [eapply Qle_trans; [done|]|]; by vm_compute.
  - assert (H : Qnum x = 0) by (destruct x; unfold Qle in *; simpl in *; lia).
    unfold binary64. by rewrite H.
Qed.

Lemma binary64_zero (x : Q) : (x == 0)%Q → binary64 x = 0%Q.
Proof.
  intros H. assert (H0 : Qnum x = 0) by (destruct x; unfold Qeq in H; simpl in *; lia).
  unfold binary64. by rewrite H0.
Qed.

Lemma round_half_even_near (s : Q) :
  (s - (1 # 2) <= inject_Z (round_half_even s) <= s + (1 # 2))%Q.
Proof.
  unfold round_half_even. pose proof (Qfloor_le s) as Hle. pose proof (Qlt_floor s) as Hlt.
  rewrite inject_Z_plus in Hlt. change (inject_Z 1) with 1%Q in Hlt.
  destruct (_ ?= _)%Q eqn:Hc;
    [apply Qeq_alt in Hc | apply Qlt_alt in Hc | apply Qgt_alt in Hc];
    [destruct (Z.even _)|..]; rewrite ?inject_Z_plus; change (inject_Z 1) with 1%Q;
    split; lra.
Qed.

(** Rounding moves a value by at most half a unit of its last place. *)
Lemma binary64_error (x : Q) (E : Z) :
  (0 < x)%Q → ilog2 x - 52 <= E → -1074 <= E →
  (x - 2 ^ E * (1 # 2) <= binary64 x <= x + 2 ^ E * (1 # 2))%Q.
Proof.
  intros Hx He1 He2. rewrite (binary64_pos x Hx).
  set (e := Z.max (ilog2 x - 52) (-1074)).
  assert (He : e <= E) by lia.
  pose proof (two_pow_le e E He) as HeE. pose proof (two_pow_pos e) as Hp.
  pose proof (round_half_even_near (x * 2 ^ (- e))) as [Hlo Hhi].
  assert (Hs : (x * 2 ^ (- e) * 2 ^ e == x)%Q)
    by (by rewrite <- Qmult_assoc, two_pow_cancel, Qmult_1_r).
  set (r := inject_Z (round_half_even (x * 2 ^ (- e)))) in *.
  set (s := (x * 2 ^ (- e))%Q) in *. set (p := (2 ^ e)%Q) in *. set (P := (2 ^ E)%Q) in *.
  apply (Qmult_le_compat_r _ _ p) in Hlo; [|lra].
  apply (Qmult_le_compat_r _ _ p) in Hhi; [|lra].
  split; lra.
Qed.

Lemma round_half_even_comp (s s' : Q) :
  (s == s')%Q → round_half_even s = round_half_even s'.
Proof.
  intros H. unfold round_half_even. rewrite (Qfloor_comp _ _ H).
  assert (Hc : (s - inject_Z (Qfloor s') ?= 1 # 2)%Q = (s' - inject_Z (Qfloor s') ?= 1 # 2)%Q)
    by (by rewrite H).
  by rewrite Hc.
Qed.

Lemma ilog2_comp (x y : Q) : (0 < x)%Q → (x == y)%Q → ilog2 x = ilog2 y.
Proof.
  intros Hx H. assert (Hy : (0 < y)%Q) by (by rewrite <- H).
  destruct (ilog2_spec x Hx) as [Hx1 Hx2]. destruct (ilog2_spec y Hy) as [Hy1 Hy2].
  apply Z.le_antisymm.
  - apply ilog2_le; [done|]. by rewrite H.
  - apply ilog2_le; [done|]. by rewrite <- H.
Qed.

Lemma binary64_pos_eq (x : Q) :
  (0 < x)%Q →
  binary64 x =
    Qred (inject_Z (round_half_even (x * 2 ^ (- Z.max (ilog2 x - 52) (-1074))))
          * 2 ^ Z.max (ilog2 x - 52) (-1074)).
Proof. intros Hx. unfold binary64. by destruct x as [[|n|n] d]. Qed.

Lemma binary64_neg_eq (x : Q) :
  (x < 0)%Q →
  binary64 x =
    Qred (- (inject_Z (round_half_even (- x * 2 ^ (- Z.max (ilog2 (- x) - 52) (-1074))))
             * 2 ^ Z.max (ilog2 (- x) - 52) (-1074))).
Proof. intros Hx. unfold binary64. by destruct x as [[|n|n] d]. Qed.

(** The rounded value depends on the number, not on the fraction that
    denotes it, and comes in lowest terms. *)
Lemma binary64_comp (x y : Q) : (x == y)%Q → binary64 x = binary64 y.
Proof.
  intros H.
  destruct (Qlt_le_dec 0 x) as [Hx|Hx]; [|destruct (Qlt_le_dec x 0) as [Hx'|Hx']].
  - assert (Hy : (0 < y)%Q) by (by rewrite <- H).
    rewrite (binary64_pos_eq x Hx), (binary64_pos_eq y Hy), <- (ilog2_comp x y Hx H).
    apply Qred_complete.
    rewrite (round_half_even_comp (x * _) (y * 2 ^ (- Z.max (ilog2 x - 52) (-1074)))); [done|].
    by apply Qmult_comp.
  - assert (Hy : (y < 0)%Q) by (by rewrite <- H).
    assert (Hx0 : (0 < - x)%Q) by lra.
    assert (H' : (- x == - y)%Q) by (by rewrite H).
    rewrite (binary64_neg_eq x Hx'), (binary64_neg_eq y Hy), <- (ilog2_comp (- x) (- y) Hx0 H').
    apply Qred_complete.
    rewrite (round_half_even_comp (- x * _) (- y * 2 ^ (- Z.max (ilog2 (- x) - 52) (-1074))));
      [done|].
    by apply Qmult_comp.
  - assert (Hx0 : (x == 0)%Q) by lra. assert (Hy0 : (y == 0)%Q) by (by rewrite <- H).
    by rewrite !binary64_zero.
Qed.

(** Integers below [2^53] are values of the grid. *)
Lemma binary64_of_Z (n : Z) :
  0 <= n < 2 ^ 53 → (binary64 (inject_Z n) == inject_Z n)%Q.
Proof.
  intros [H0 Hn]. destruct (decide (n = 0)) as [->|Hne]; [done|].
  assert (Hpos : 0 < n) by lia.
  assert (Hx : (0 < inject_Z n)%Q) by (change 0%Q with (inject_Z 0); by rewrite <- Zlt_Qlt).
  pose proof (Z.log2_spec n Hpos) as [Hk1 Hk2].
  pose proof (Z.log2_nonneg n) as Hk0.
  assert (Hk : Z.log2 n < 53) by (by apply Z.log2_lt_pow2).
  set (k := Z.log2 n) in *.
  assert (Hi : ilog2 (inject_Z n) = k).
  { apply Z.le_antisymm.
    - apply ilog2_le; [done|]. rewrite <- two_pow_Z by lia. rewrite <- Zlt_Qlt. lia.
    - apply ilog2_ge. rewrite <- two_pow_Z by lia. by rewrite <- Zle_Qle. }
  rewrite (binary64_pos _ Hx), Hi. replace (Z.max (k - 52) (-1074)) with (k - 52) by lia.
  assert (Hs : (inject_Z n * 2 ^ (- (k - 52)) == inject_Z (n * 2 ^ (52 - k)))%Q).
  { rewrite inject_Z_mult, two_pow_Z by lia. by replace (- (k - 52)) with (52 - k) by lia. }
  assert (Hr : round_half_even (inject_Z n * 2 ^ (- (k - 52))) = n * 2 ^ (52 - k)).
  { apply Z.le_antisymm.
    - apply round_half_even_le. rewrite Hs. lra.
    - apply round_half_even_ge. rewrite Hs. lra. }
  rewrite Hr, <- Hs, <- Qmult_assoc, two_pow_cancel. ring.
Qed.

(** When the exponent of the argument is known, rounding stays below a value of
    the grid as soon as the argument is below the midpoint that follows it. *)
Lemma binary64_le_near (x : Q) (M e : Z) :
  (0 < x)%Q → Z.max (ilog2 x - 52) (-1074) = e →
  (x * 2 ^ (- e) < inject_Z M + (1 # 2))%Q →
  (binary64 x <= inject_Z M * 2 ^ e)%Q.
Proof.
  intros Hx He Hs. rewrite (binary64_pos x Hx), He.
  apply Qmult_le_compat_r; [|apply Qlt_le_weak, two_pow_pos].
  rewrite <- Zle_Qle. by apply round_half_even_le.
Qed.

Lemma binary64_le_100 (y : Q) : (0 <= y <= 100)%Q → (binary64 y <= 100)%Q.
Proof.
  intros [H0 H1]. destruct (Qlt_le_dec 0 y) as [Hpos|Hle].
  - assert (ilog2 y <= 6).
    { apply ilog2_le; [done|]. eapply Qle_lt_trans; [done|]. by vm_compute. }
    eapply Qle_trans; [apply (binary64_le_grid y (100 * 2 ^ 46) (-46)); [done|lia|lia|]|];
      [eapply Qle_trans; [done|]|]; by vm_compute.
  - rewrite binary64_zero by lra. done.
Qed.

(** Below one, the largest value of the grid is [1 - 2^-53]. *)
Lemma binary64_below_1 (x : Q) :
  (0 <= x <= 1 - 2 ^ (-53))%Q → (binary64 x <= 1 - 2 ^ (-53))%Q.
Proof.
  intros [H0 H1]. destruct (Qlt_le_dec 0 x) as [Hpos|Hle].
  - assert (ilog2 x <= -1).
    { apply ilog2_le; [done|]. eapply Qle_lt_trans; [done|]. by vm_compute. }
    eapply Qle_trans; [apply (binary64_le_grid x (2 ^ 53 - 1) (-53)); [done|lia|lia|]|];
      [eapply Qle_trans; [done|]|]; by vm_compute.
  - rewrite binary64_zero by lra. by vm_compute.
Qed.

(** A product of 100 and a value below one rounds below 100. *)
Lemma binary64_below_100 (y : Q) :
  (0 <= y <= 100 * (1 - 2 ^ (-53)))%Q → (binary64 y < 100)%Q.
Proof.
  intros [H0 H1].
  assert (Hb : (100 * (1 - 2 ^ (-53)) == 100 - (100 # 9007199254740992))%Q) by (by vm_compute).
  rewrite Hb in H1. clear Hb.
  destruct (Qlt_le_dec 0 y) as [Hpos|Hle]; [|rewrite binary64_zero by lra; done].
  destruct (Qlt_le_dec y 64) as [Hlt|Hge].
  - assert (ilog2 y <= 5) by (apply ilog2_le; [done|]; by eapply Qlt_le_trans).
    eapply Qle_lt_trans;
      [apply (binary64_le_grid y (2 ^ 52) (-46)); [done|lia|lia|]|by vm_compute].
    eapply Qle_trans; [apply Qlt_le_weak, Hlt|by vm_compute].
  - assert (ilog2 y <= 6).
    { apply ilog2_le; [done|]. eapply Qle_lt_trans; [done|]. by vm_compute. }
    assert (6 <= ilog2 y) by (apply ilog2_ge; eapply Qle_trans; [|done]; by vm_compute).
    eapply Qle_lt_trans;
      [apply (binary64_le_near y (100 * 2 ^ 46 - 1) (-46)); [done|lia|]|by vm_compute].
    change (2 ^ (- -46))%Q with (inject_Z (2 ^ 46)).
    change (inject_Z (100 * 2 ^ 46 - 1)) with (inject_Z (2 ^ 46) * 100 - 1)%Q.
    assert (Hc : (inject_Z (2 ^ 46) * (100 # 9007199254740992) == 100 # 128)%Q) by (by vm_compute).
    set (p := inject_Z (2 ^ 46)) in *. assert (Hp : (0 < p)%Q) by (by vm_compute).
    apply (Qmult_le_compat_r _ _ p) in H1; [|lra]. lra.
Qed.


Lemma ratio_range (c t : Z) :
  0 ≤ c ≤ t → 0 < t → (0 <= inject_Z c / inject_Z t <= 1)%Q.
Proof.
  intros [Hc Hct] Ht.
  assert (Ht' : (0 < inject_Z t)%Q) by (change 0%Q with (inject_Z 0); by rewrite <- Zlt_Qlt).
  split.
  - apply Qle_shift_div_l; [done|]. rewrite Qmult_0_l. change 0%Q with (inject_Z 0).
    by rewrite <- Zle_Qle.
  - apply Qle_shift_div_r; [done|]. rewrite Qmult_1_l. by rewrite <- Zle_Qle.
Qed.

Lemma int_truediv_range (c t : Z) :
  0 ≤ c ≤ t → 0 < t → (0 <= int_truediv c t <= 1)%Q.
Proof.
  intros Hc Ht. pose proof (ratio_range c t Hc Ht) as [H0 H1]. unfold int_truediv. split.
  - by apply binary64_nonneg.
  - by apply binary64_le_1.
Qed.

Lemma percentage_range (c t : Z) :
  0 ≤ c ≤ t → 0 < t →
  (0 <= float_mul (int_truediv c t) 100 <= 100)%Q.
Proof.
  intros Hc Ht. pose proof (int_truediv_range c t Hc Ht) as [H0 H1]. unfold float_mul. split.
  - apply binary64_nonneg. lra.
  - apply binary64_le_100. lra.
Qed.

Lemma percentage_full (c t : Z) :
  0 ≤ c ≤ t → 0 < t ≤ 2 ^ 53 →
  (float_mul (int_truediv c t) 100 == 100)%Q ↔ c = t.
Proof.
  intros [Hc Hct] [Ht Ht53].
  assert (Ht' : (0 < inject_Z t)%Q) by (change 0%Q with (inject_Z 0); by rewrite <- Zlt_Qlt).
  split.
  - intros Hfull. destruct (decide (c = t)) as [|Hne]; [done|exfalso].
    assert (Hx : (inject_Z c / inject_Z t <= 1 - 2 ^ (-53))%Q).
    { apply Qle_shift_div_r; [done|].
      assert (H1 : (inject_Z c <= inject_Z (t - 1))%Q) by (rewrite <- Zle_Qle; lia).
      assert (H2 : (inject_Z t <= inject_Z (2 ^ 53))%Q) by (by rewrite <- Zle_Qle).
      unfold Z.sub in H1. rewrite inject_Z_plus in H1.
      change (inject_Z (2 ^ 53)) with (9007199254740992%Q) in H2.
      change (inject_Z (- (1))) with (- (1))%Q in H1.
      change (2 ^ (-53))%Q with (1 # 9007199254740992)%Q. lra. }
    pose proof (ratio_range c t (conj Hc Hct) Ht) as [H0 _].
    pose proof (binary64_below_1 _ (conj H0 Hx)) as Hq.
    pose proof (binary64_nonneg _ H0) as Hq0.
    fold (int_truediv c t) in Hq, Hq0.
    assert (Hy : (0 <= int_truediv c t * 100 <= 100 * (1 - 2 ^ (-53)))%Q).
    { change (2 ^ (-53))%Q with (1 # 9007199254740992)%Q in *. lra. }
    apply binary64_below_100 in Hy. fold (float_mul (int_truediv c t) 100) in Hy. lra.
  - intros ->. unfold float_mul, int_truediv.
    assert (H1 : (inject_Z t / inject_Z t == 1)%Q) by (field; lra).
    by rewrite (binary64_comp _ _ H1).
Qed.

(** The two roundings move the percentage by less than [2^-45]. *)
Lemma percentage_error (c t : Z) :
  0 ≤ c ≤ t → 0 < t →
  (inject_Z c / inject_Z t * 100 - 2 ^ (-45)
     <= float_mul (int_truediv c t) 100
     <= inject_Z c / inject_Z t * 100 + 2 ^ (-45))%Q.
Proof.
  intros Hc Ht. pose proof (ratio_range c t Hc Ht) as [H0 H1].
  pose proof (int_truediv_range c t Hc Ht) as [Hq0 Hq1].
  unfold float_mul, int_truediv in *. set (x := (inject_Z c / inject_Z t)%Q) in *.
  assert (Hq : (x - 2 ^ (-52) * (1 # 2) <= binary64 x <= x + 2 ^ (-52) * (1 # 2))%Q).
  { destruct (Qlt_le_dec 0 x) as [Hpos|Hle].
    - assert (ilog2 x <= 0) by (apply ilog2_le; [done|]; by eapply Qle_lt_trans).
      apply binary64_error; [done|lia|lia].
    - rewrite binary64_zero by lra. change (2 ^ (-52))%Q with (1 # 4503599627370496)%Q. lra. }
  set (q := binary64 x) in *.
  assert (Hr : (q * 100 - 2 ^ (-46) * (1 # 2) <= binary64 (q * 100)
                <= q * 100 + 2 ^ (-46) * (1 # 2))%Q).
  { destruct (Qlt_le_dec 0 (q * 100)) as [Hpos|Hle].
    - assert (ilog2 (q * 100) <= 6).
      { apply ilog2_le; [done|]. apply Qle_lt_trans with 100%Q; [lra|by vm_compute]. }
      apply binary64_error; [done|lia|lia].
    - rewrite binary64_zero by lra. change (2 ^ (-46))%Q with (1 # 70368744177664)%Q. lra. }
  change (2 ^ (-52))%Q with (1 # 4503599627370496)%Q in Hq.
  change (2 ^ (-46))%Q with (1 # 70368744177664)%Q in Hr.
  change (2 ^ (-45))%Q with (1 # 35184372088832)%Q. lra.
Qed.

(** Counts below [2^53] convert to binary64 without rounding, so that the
    division of the converted counts is the division of the counts. *)
Lemma float_div_of_int (c t : Z) :
  0 ≤ c < 2 ^ 53 → 0 ≤ t < 2 ^ 53 →
  float_div (float_of_int c) (float_of_int t) = int_truediv c t.
Proof.
  intros Hc Ht. unfold float_div, float_of_int, int_truediv. apply binary64_comp.
  by rewrite !binary64_of_Z.
Qed.

(** On every pair of counts up to 64, the quotient and the percentage that
    [binary64] gives are the floats that the kernel's own IEEE 754 division
    and multiplication give. *)
Example binary64_agrees_with_kernel :
  forallb (λ t, forallb (λ c, kernel_agrees c t) (seqZ 0 (t + 1))) (seqZ 1 64) = true.
Proof. by vm_compute. Qed.

(** ** Daily capacity *)

(** One task completed of three that are due today: the rate is the float
    that Python prints as 33.33333333333333, not the rational 100/3. *)
Example analyze_daily_productivity_third :
  let now := 738000 * US_PER_DAY + 9 * US_PER_HOUR in
  let t1 := Task.mk 1 "a" 738000 High 5 true in
  let t2 := Task.mk 2 "b" 738000 Low 6 false in
  let t3 := Task.mk 3 "c" 738000 Medium 7 false in
  analyze_daily_productivity now now [t1; t2; t3]
  = (Some [t1; t2; t3], Some (2345624805922133 # 70368744177664)%Q, Some true)
  ∧ float_of_parts (binary64_parts (int_truediv 1 3 * 100)) = (1 / 3 * 100)%float.
Proof. by vm_compute. Qed.

Lemma hour_of_range (dt : datetime) : 0 ≤ hour_of dt ≤ 23.
Proof.
  unfold hour_of.
  pose proof (Z.mod_pos_bound dt US_PER_DAY ltac:(unfold US_PER_DAY; lia)) as H.
  unfold US_PER_DAY, US_PER_HOUR in *. split.
  - apply Z.div_pos; lia.
  - apply Z.lt_succ_r. apply Z.div_lt_upper_bound; lia.
Qed.

Lemma length_filter_split {A} (P : A → Prop) `{!∀ x, Decision (P x)} (l : list A) :
  (length (filter P l) + length (filter (λ x, ¬ P x) l))%nat = length l.
Proof. by rewrite <- length_app, filter_app_complement. Qed.

(** The tasks of today that are not completed are the tasks that are due
    today and open. *)
Lemma open_today today (tasks : list Task.t) :
  filter (λ task, ¬ Task.completed task = true) (filter (λ task, Task.due_date task = today) tasks)
  = filter (due_and_open today) tasks.
Proof.
  rewrite list_filter_filter. apply list_filter_iff. intros task. unfold due_and_open.
  destruct (Task.completed task); split; intros [H1 H2]; split; congruence.
Qed.

(** C5.  When no task is due today the result is (None, None, None).
    Otherwise the result carries today's tasks and a completion rate that is
    the float computed as the number of completed tasks of today divided by
    the number of tasks of today, times 100: the quotient rounded to
    binary64, multiplied by 100 and rounded again.  That float lies between
    0 and 100, and the two roundings keep it within 2^-45 of the exact
    percentage. *)
Theorem analyze_daily_productivity_rate now0 now1 tasks :
  let today := date_of now0 in
  let today_tasks := filter (λ task, Task.due_date task = today) tasks in
  let completed_today := filter (λ task, Task.completed task = true) today_tasks in
  ((∀ task, task ∈ tasks → Task.due_date task ≠ today) ∧
   analyze_daily_productivity now0 now1 tasks = (None, None, None)) ∨
  ((∃ task, task ∈ tasks ∧ Task.due_date task = today) ∧
   ∃ rate can_complete,
     analyze_daily_productivity now0 now1 tasks
       = (Some today_tasks, Some rate, Some can_complete) ∧
     rate = float_mul (int_truediv (Z.of_nat (length completed_today))
                                   (Z.of_nat (length today_tasks))) 100 ∧
     (0 <= rate <= 100)%Q ∧
     (inject_Z (Z.of_nat (length completed_today))
        / inject_Z (Z.of_nat (length today_tasks)) * 100 - 2 ^ (-45)
      <= rate
      <= inject_Z (Z.of_nat (length completed_today))
         / inject_Z (Z.of_nat (length today_tasks)) * 100 + 2 ^ (-45))%Q).
Proof.
  intros today. cbv zeta.
  unfold analyze_daily_productivity. fold today.
  set (today_tasks := filter (λ task, Task.due_date task = today) tasks).
  assert (Hdef : today_tasks = filter (λ task, Task.due_date task = today) tasks) by done.
  clearbody today_tasks.
  destruct today_tasks as [|task rest].
  - left. split; [|done]. symmetry in Hdef.
    intros task Hin Hdue.
    by apply (filter_nil_not_elem_of (λ task, Task.due_date task = today) tasks task).
  - right. split.
    { exists task. apply and_comm.
      apply (list_elem_of_filter (λ task, Task.due_date task = today)).
      rewrite <- Hdef. left. }
    set (today_tasks := task :: rest) in *.
    assert (Hpos : 0 < Z.of_nat (length today_tasks)) by (simpl; lia).
    apply Z.ltb_lt in Hpos as Hpos'. rewrite Hpos'.
    assert (Hle : 0 ≤ Z.of_nat (length (filter (λ task, Task.completed task = true)
                                          today_tasks))
                  ≤ Z.of_nat (length today_tasks)).
    { split; [lia|]. apply inj_le. apply length_filter. }
    eexists _, _. split; [reflexivity|]. split; [reflexivity|]. split.
    + by apply percentage_range.
    + by apply percentage_error.
Qed.

(** C6.  When some task is due today, the verdict is true exactly when thirty
    minutes for each task that is due today and not completed fit into the
    hours left until midnight, counted from the current hour. *)
Theorem analyze_daily_productivity_feasible now0 now1 tasks :
  let today := date_of now0 in
  let open_tasks := filter (due_and_open today) tasks in
  (∃ task, task ∈ tasks ∧ Task.due_date task = today) →
  ∃ today_tasks rate can_complete,
    analyze_daily_productivity now0 now1 tasks
      = (Some today_tasks, Some rate, Some can_complete) ∧
    (can_complete = true ↔
       Z.of_nat (length open_tasks) * 30 ≤ (24 - hour_of now1) * 60).
Proof.
  intros today open_tasks [task [Hin Hdue]].
  unfold analyze_daily_productivity. fold today.
  pose proof (length_filter_split (λ task, Task.completed task = true)
                (filter (λ task, Task.due_date task = today) tasks)) as Hsplit.
  rewrite open_today in Hsplit. fold open_tasks in Hsplit.
  destruct (filter (λ task, Task.due_date task = today) tasks) as [|t rest] eqn:Hts.
  - exfalso. eapply (filter_nil_not_elem_of (λ task, Task.due_date task = today)); eauto.
  - eexists _, _, _. split; [reflexivity|].
    rewrite Z.leb_le.
    replace (Z.of_nat (length (t :: rest))
             - Z.of_nat (length (filter (λ task, Task.completed task = true) (t :: rest))))
      with (Z.of_nat (length open_tasks)) by lia.
    reflexivity.
Qed.

(** One open task due today at 23:xx fits (30 minutes against 60); three do
    not (90 minutes against 60). *)
Lemma analyze_daily_productivity_feasible_witness :
  let now := 738000 * US_PER_DAY + 23 * US_PER_HOUR + 15 * US_PER_MINUTE in
  let task k := Task.mk k "t" 738000 Low (737999 * US_PER_DAY) false in
  ∃ today_tasks rate can_complete,
    analyze_daily_productivity now now [task 1; task 2; task 3]
      = (Some today_tasks, Some rate, Some can_complete) ∧
    (can_complete = true ↔ 3 * 30 ≤ (24 - 23) * 60).
Proof.
  intros now task.
  apply (analyze_daily_productivity_feasible now now [task 1; task 2; task 3]).
  exists (task 1). split; [left | reflexivity].
Defined.

(** ** High-risk tasks *)

(** C7.  The high-risk rows are exactly the rows of the frame whose predicted
    probability is below 0.3 in the binary64 order, kept in the order of the
    frame: a subsequence of the frame, all below the threshold, containing
    every subsequence whose rows are all below the threshold.  For the
    probabilities 0.1, 0.5, 0.29, 0.31 these are the rows with 0.1 and 0.29;
    a row at 0.3 itself is not high-risk. *)
Theorem high_risk_tasks_below_threshold (df : list Row.t) :
  let below := λ r, PrimFloat.ltb (Row.completion_probability r) 0.3%float = true in
  Forall below (high_risk_tasks df) ∧
  high_risk_tasks df `sublist_of` df ∧
  (∀ l, l `sublist_of` df → Forall below l → l `sublist_of` high_risk_tasks df) ∧
  (∀ f0 f1 f2 f3,
     high_risk_tasks [Row.mk f0 0.1%float; Row.mk f1 0.5%float;
                      Row.mk f2 0.29%float; Row.mk f3 0.31%float]
     = [Row.mk f0 0.1%float; Row.mk f2 0.29%float]) ∧
  (∀ f, high_risk_tasks [Row.mk f 0.3%float] = []).
Proof.
  intros below. unfold high_risk_tasks. fold below. repeat split.
  - apply Forall_forall. intros r Hr. by apply list_elem_of_filter in Hr as [? _].
  - apply sublist_filter.
  - intros l Hl HP. by apply filter_sublist_max.
Qed.

(** ** The offline trainer's split *)

(** The test size: [ceil(0.2 * n)]. *)
Lemma fifth_ceiling (n : nat) :
  Qceiling ((2 # 10) * inject_Z (Z.of_nat n)) = (Z.of_nat n + 4) / 5.
Proof.
  unfold Qceiling, Qfloor, Qmult, Qopp, inject_Z. simpl.
  generalize (Z.of_nat n). intros k.
  change (Z.pos (10 * 1)) with 10.
  pose proof (Z.div_mod (k + 4) 5 ltac:(lia)).
  pose proof (Z.mod_pos_bound (k + 4) 5 ltac:(lia)).
  pose proof (Z.div_mod (- (2 * k)) 10 ltac:(lia)).
  pose proof (Z.mod_pos_bound (- (2 * k)) 10 ltac:(lia)).
  lia.
Qed.

Lemma fifth_ceiling_bounds (n : nat) :
  let n_test := Z.to_nat ((Z.of_nat n + 4) / 5) in
  (n ≤ 5 * n_test < n + 5)%nat.
Proof.
  intros n_test. unfold n_test.
  pose proof (Z.div_mod (Z.of_nat n + 4) 5 ltac:(lia)).
  pose proof (Z.mod_pos_bound (Z.of_nat n + 4) 5 ltac:(lia)).
  assert (0 ≤ (Z.of_nat n + 4) / 5) by (apply Z.div_pos; lia).
  lia.
Qed.

Lemma take_rows_seq {A} (X : list A) : take_rows X (seq 0 (length X)) = X.
Proof.
  unfold take_rows. induction X as [|x X IH]; [done|].
  simpl. f_equal. rewrite <- fmap_S_seq. etrans; [|exact IH].
  apply list_omap_ext. apply Forall2_fmap_l. by apply Forall_Forall2_diag, Forall_true.
Qed.

Lemma take_rows_perm {A} (X : list A) (p : list nat) :
  p ≡ₚ seq 0 (length X) → take_rows X p ≡ₚ X.
Proof.
  intros Hp. unfold take_rows. rewrite Hp.
  fold (take_rows X (seq 0 (length X))). by rewrite take_rows_seq.
Qed.

Lemma length_take_rows {A} (X : list A) (idx : list nat) :
  Forall (λ i, (i < length X)%nat) idx → length (take_rows X idx) = length idx.
Proof.
  unfold take_rows. induction 1 as [|i idx Hi _ IH]; [done|]. csimpl.
  destruct (lookup_lt_is_Some_2 X i Hi) as [x ->]. simpl. by rewrite IH.
Qed.

Lemma length_trainer_features df : length (trainer_features df) = length df.
Proof.
  unfold trainer_features, le_fit_transform.
  apply length_zip_with_l_eq. by rewrite !length_fmap.
Qed.

Lemma length_trainer_target df : length (trainer_target df) = length df.
Proof. apply length_fmap. Qed.

Section SplitFacts.
Variable permutation : Z → nat → list nat.
Hypothesis permutation_valid : ∀ seed n, permutation seed n ≡ₚ seq 0 n.

Lemma permutation_in_range seed n :
  length (permutation seed n) = n ∧ Forall (λ i, (i < n)%nat) (permutation seed n).
Proof.
  split.
  - by rewrite permutation_valid, length_seq.
  - apply Forall_forall. intros i Hi. rewrite permutation_valid in Hi.
    apply elem_of_seq in Hi. lia.
Qed.

(** With a test size of 0.2 the split of at least two rows succeeds: the
    test rows are those at the first [ceil(n/5)] indices of the permutation
    drawn for the seed, the training rows those at the remaining indices. *)
Lemma train_test_split_fifth {A B} (X : list A) (y : list B) (seed : Z) :
  length y = length X → (2 ≤ length X)%nat →
  let n_test := Z.to_nat ((Z.of_nat (length X) + 4) / 5) in
  let p := permutation seed (length X) in
  train_test_split permutation X y (2 # 10) seed
  = Some (take_rows X (drop n_test p), take_rows X (take n_test p),
          take_rows y (drop n_test p), take_rows y (take n_test p)).
Proof.
  intros Hy Hn n_test p. unfold train_test_split.
  rewrite fifth_ceiling. fold n_test. fold p.
  pose proof (fifth_ceiling_bounds (length X)) as Hb. cbv zeta in Hb. fold n_test in Hb.
  destruct (permutation_in_range seed (length X)) as [Hlen _]. fold p in Hlen.
  rewrite decide_True by lia.
  rewrite (take_ge (drop n_test p)); [done|]. rewrite length_drop. lia.
Qed.
End SplitFacts.

Lemma count_class_indicator {A} (f : A → bool) (l : list A) :
  count_class 1 ((λ x, if f x then 1 else 0) <$> l)
  = Z.of_nat (length (filter (λ x, f x = true) l)).
Proof.
  unfold count_class. f_equal. induction l as [|x l IH]; [done|].
  csimpl. rewrite !filter_cons. destruct (f x); simpl; repeat case_decide; try done.
  simpl. by rewrite IH.
Qed.

Lemma at_most_two (a b : nat) (l : list nat) :
  NoDup l → (length (filter (λ i, bool_decide (i = a ∨ i = b) = true) l) ≤ 2)%nat.
Proof.
  intros Hl. change 2%nat with (length [a; b]). apply submseteq_length.
  apply NoDup_submseteq; [by apply NoDup_filter|].
  intros i Hi. apply list_elem_of_filter in Hi as [Hi _].
  apply bool_decide_eq_true in Hi. destruct Hi as [-> | ->]; repeat constructor.
Qed.

(** C3, as stated, fails: whatever permutation numpy draws, there are ten
    rows whose two completed tasks both land in the test part, five times
    their share. *)
Lemma trainer_split_not_stratified :
  ¬ ∃ permutation : Z → nat → list nat,
      (∀ seed n, permutation seed n ≡ₚ seq 0 n) ∧
      ∀ df X_train X_test y_train y_test,
        trainer_split permutation df = Some (X_train, X_test, y_train, y_test) →
        stratified (trainer_target df) y_test.
Proof.
  intros (P & Hvalid & Hstrat).
  destruct (permutation_in_range P Hvalid 42 10) as [Hlen Hrange].
  destruct (P 42 10%nat) as [|a [|b rest]] eqn:Hp; simpl in Hlen; try lia.
  apply Forall_cons in Hrange as [Ha Hrange]. apply Forall_cons in Hrange as [Hb _].
  set (row := λ i : nat, Task.mk (Z.of_nat i) "t" 0 Low 0 (bool_decide (i = a ∨ i = b))).
  set (df := row <$> seq 0 10).
  assert (Hdf : length df = 10%nat) by reflexivity.
  assert (Hlook : ∀ i, (i < 10)%nat →
            trainer_target df !! i = Some (if bool_decide (i = a ∨ i = b) then 1 else 0)).
  { intros i Hi. unfold trainer_target, df.
    rewrite !list_lookup_fmap, lookup_seq_lt by done. reflexivity. }
  assert (Hall : 0 ≤ count_class 1 (trainer_target df) ≤ 2).
  { split; [unfold count_class; lia|].
    replace (trainer_target df)
      with ((λ i, if bool_decide (i = a ∨ i = b) then 1 else 0) <$> seq 0 10)
      by (unfold trainer_target, df; by rewrite <- list_fmap_compose).
    rewrite (count_class_indicator (λ i, bool_decide (i = a ∨ i = b))).
    pose proof (at_most_two a b (seq 0 10) (NoDup_seq 0 10)). lia. }
  clearbody df.
  pose proof (train_test_split_fifth P Hvalid (trainer_features df) (trainer_target df) 42)
    as Hsplit.
  rewrite length_trainer_features, length_trainer_target, Hdf in Hsplit.
  specialize (Hsplit eq_refl ltac:(lia)). cbv zeta in Hsplit.
  change (Z.to_nat ((Z.of_nat 10 + 4) / 5)) with 2%nat in Hsplit.
  rewrite Hp in Hsplit. change (take 2 (a :: b :: rest)) with [a; b] in Hsplit.
  specialize (Hstrat df _ _ _ _ Hsplit 1).
  assert (Htest : take_rows (trainer_target df) [a; b] = [1; 1]).
  { unfold take_rows. csimpl. rewrite (Hlook a Ha), (Hlook b Hb).
    rewrite !bool_decide_eq_true_2 by tauto. reflexivity. }
  rewrite Htest in Hstrat.
  rewrite length_trainer_target, Hdf in Hstrat.
  change (count_class 1 [1; 1]) with 2 in Hstrat. simpl length in Hstrat.
  lia.
Qed.

(** C3, amended.  For at least two rows the trainer's split succeeds, the
    classifier is fitted on its training part, and the split is a shuffled
    80/20 split under the fixed seed 42, not a stratified one: the
    test part has [ceil(n/5)] rows and the training part the other rows; the
    test rows are those at the first [ceil(n/5)] indices of the permutation
    drawn for seed 42 and the row count, the training rows those at the
    remaining indices, for the features and the labels alike, so the choice
    does not look at the labels; together the two parts are a rearrangement of
    the data. *)
Theorem trainer_split_shuffled (permutation : Z → nat → list nat)
    (random_forest_fit : list (Z * Z * Z * Z) → list Z → (Z * Z * Z * Z → Z))
    (df : list Task.t) :
  (∀ seed n, permutation seed n ≡ₚ seq 0 n) →
  (2 ≤ length df)%nat →
  let n := length df in
  let n_test := Z.to_nat ((Z.of_nat n + 4) / 5) in
  let p := permutation 42 n in
  ∃ X_train X_test y_train y_test,
    trainer_split permutation df = Some (X_train, X_test, y_train, y_test) ∧
    trainer permutation random_forest_fit df
      = Some (random_forest_fit X_train y_train, y_test,
              random_forest_fit X_train y_train <$> X_test) ∧
    (n ≤ 5 * n_test < n + 5)%nat ∧
    length X_test = n_test ∧ length y_test = n_test ∧
    length X_train = (n - n_test)%nat ∧ length y_train = (n - n_test)%nat ∧
    X_test = take_rows (trainer_features df) (take n_test p) ∧
    y_test = take_rows (trainer_target df) (take n_test p) ∧
    X_train = take_rows (trainer_features df) (drop n_test p) ∧
    y_train = take_rows (trainer_target df) (drop n_test p) ∧
    X_train ++ X_test ≡ₚ trainer_features df ∧
    y_train ++ y_test ≡ₚ trainer_target df.
Proof.
  intros Hvalid Hn n n_test p.
  pose proof (train_test_split_fifth permutation Hvalid
                (trainer_features df) (trainer_target df) 42) as Hsplit.
  rewrite length_trainer_features, length_trainer_target in Hsplit.
  specialize (Hsplit eq_refl Hn). cbv zeta in Hsplit. fold n n_test p in Hsplit.
  pose proof (fifth_ceiling_bounds n) as Hb. cbv zeta in Hb. fold n_test in Hb.
  destruct (permutation_in_range permutation Hvalid 42 n) as [Hlen Hrange]. fold p in Hlen, Hrange.
  assert (HX : ∀ {A} (X : list A), length X = n →
            length (take_rows X (take n_test p)) = n_test ∧
            length (take_rows X (drop n_test p)) = (n - n_test)%nat ∧
            take_rows X (drop n_test p) ++ take_rows X (take n_test p) ≡ₚ X).
  { intros A X HXn. split; [|split].
    - rewrite length_take_rows; [rewrite length_take; lia|].
      rewrite HXn. by apply Forall_take.
    - rewrite length_take_rows; [rewrite length_drop; lia|].
      rewrite HXn. by apply Forall_drop.
    - unfold take_rows. rewrite <- omap_app.
      rewrite (Permutation_app_comm (drop n_test p)), take_drop.
      apply take_rows_perm. rewrite HXn. apply Hvalid. }
  destruct (HX _ (trainer_features df) (length_trainer_features df)) as (? & ? & ?).
  destruct (HX _ (trainer_target df) (length_trainer_target df)) as (? & ? & ?).
  eexists _, _, _, _. split; [exact Hsplit|].
  split; [unfold trainer, trainer_split; by rewrite Hsplit|]. repeat split; try done; lia.
Qed.

(** The amended statement for five rows under the reversing permutation:
    one test row (the last row) and four training rows. *)
Lemma trainer_split_shuffled_witness :
  let row k c := Task.mk k "t" 738003 Medium (738000 * US_PER_DAY + k * US_PER_HOUR) c in
  let df := [row 1 true; row 2 false; row 3 false; row 4 true; row 5 false] in
  ∃ X_train X_test y_train y_test,
    trainer_split (λ _ n, reverse (seq 0 n)) df = Some (X_train, X_test, y_train, y_test) ∧
    y_test = [0] ∧ y_train = [1; 0; 0; 1] ∧ length X_test = 1%nat ∧ length X_train = 4%nat.
Proof.
  intros row df.
  destruct (trainer_split_shuffled (λ _ n, reverse (seq 0 n)) (λ _ _ _, 0) df
              (λ _ n, reverse_Permutation (seq 0 n)) ltac:(simpl; lia))
    as (X_train & X_test & y_train & y_test & Hsplit & _ & _ & HXt & _ & HXr & _ & _ & Hyt & _ & Hyr & _).
  exists X_train, X_test, y_train, y_test.
  split; [exact Hsplit|]. split; [exact Hyt|]. split; [exact Hyr|]. split; [exact HXt | exact HXr].
Defined.

(** ** Running the analyses on the object store *)

Lemma bind_run {A B} (m : Imp.M A) (f : A → Imp.M B) (w : Imp.world) :
  (m ≫= f) w = match m w with Some (x, w') => f x w' | None => None end.
Proof. reflexivity. Qed.

Lemma world_eta (w : Imp.world) : Imp.World (Imp.heap w) (Imp.page w) = w.
Proof. by destruct w. Qed.

Lemma load_dict_run w r task :
  Imp.heap w !! r = Some (Imp.ODict task) → Imp.load_dict r w = Some (task, w).
Proof. intros H. unfold Imp.load_dict. rewrite bind_run. unfold Imp.load. by rewrite H. Qed.

Lemma load_list_run w l items :
  Imp.heap w !! l = Some (Imp.OList items) → Imp.load_list l w = Some (items, w).
Proof. intros H. unfold Imp.load_list. rewrite bind_run. unfold Imp.load. by rewrite H. Qed.

Lemma load_dicts_run w items ts :
  dicts_at (Imp.heap w) items ts → Imp.load_dicts items w = Some (ts, w).
Proof.
  induction 1 as [|r task items ts Hr _ IH]; [done|].
  simpl. rewrite bind_run, (load_dict_run _ _ _ Hr), bind_run, IH. done.
Qed.

Lemma load_dicts_inv w items ts w' :
  Imp.load_dicts items w = Some (ts, w') → w' = w ∧ dicts_at (Imp.heap w) items ts.
Proof.
  revert ts. induction items as [|r items IH]; intros ts; simpl.
  - intros [= <- <-]. split; [done|constructor].
  - rewrite bind_run. unfold Imp.load_dict at 1. rewrite bind_run. unfold Imp.load.
    destruct (Imp.heap w !! r) as [[task| | |]|] eqn:Hr; try done.
    unfold mret, Imp.M_ret. cbv iota beta.
    rewrite bind_run. destruct (Imp.load_dicts items w) as [[ts' w'']|] eqn:Hrest; [|done].
    intros [= <- <-]. destruct (IH ts' eq_refl) as [-> Hd]. split; [done|].
    by constructor.
Qed.

Lemma tasks_at_inv w l ts :
  Imp.tasks_at w l = Some ts →
  ∃ items, Imp.heap w !! l = Some (Imp.OList items) ∧ dicts_at (Imp.heap w) items ts.
Proof.
  unfold Imp.tasks_at. rewrite bind_run. unfold Imp.load_list at 1. rewrite bind_run.
  unfold Imp.load. destruct (Imp.heap w !! l) as [[|items| |]|] eqn:Hl; try done.
  unfold mret, Imp.M_ret. cbv iota beta.
  destruct (Imp.load_dicts items w) as [[ts' w']|] eqn:Hd; [|done].
  intros [= <-]. exists items. split; [done|]. by apply load_dicts_inv in Hd as [_ Hd].
Qed.

Lemma tasks_at_intro w l items ts :
  Imp.heap w !! l = Some (Imp.OList items) → dicts_at (Imp.heap w) items ts →
  Imp.tasks_at w l = Some ts.
Proof.
  intros Hl Hd. unfold Imp.tasks_at.
  by rewrite bind_run, (load_list_run _ _ _ Hl), (load_dicts_run _ _ _ Hd).
Qed.

(** Writing an object that is not a task dict leaves every dict in place. *)
Lemma dicts_at_insert h items ts l o :
  (∀ task, h !! l ≠ Some (Imp.ODict task)) →
  dicts_at h items ts → dicts_at (<[l := o]> h) items ts.
Proof.
  intros Hl Hd. eapply Forall2_impl; [exact Hd|]. intros r task Hr. simpl in *.
  rewrite lookup_insert_ne; [done|]. intros ->. by eapply Hl.
Qed.

Lemma fresh_unused (h : gmap nat Imp.obj) : h !! fresh (dom h) = None.
Proof. apply not_elem_of_dom. apply is_fresh. Qed.

Lemma select_run p w items ts :
  dicts_at (Imp.heap w) items ts →
  ∃ kept, Imp.select p items w = Some (kept, w) ∧
          dicts_at (Imp.heap w) kept (filter (λ task, p task = true) ts).
Proof.
  induction 1 as [|r task items ts Hr _ (kept & IH & Hkept)]; simpl.
  - exists []. split; [done|constructor].
  - rewrite bind_run, (load_dict_run _ _ _ Hr), bind_run, IH.
    destruct (p task) eqn:Hp; simpl.
    + exists (r :: kept). split; [done|]. rewrite filter_cons_True by done. by constructor.
    + exists kept. split; [done|]. rewrite filter_cons_False by congruence. done.
Qed.

Lemma count_if_run p w items ts :
  dicts_at (Imp.heap w) items ts →
  Imp.count_if p items w
  = Some (Z.of_nat (length (filter (λ task, p task = true) ts)), w).
Proof.
  induction 1 as [|r task items ts Hr _ IH]; simpl; [done|].
  rewrite bind_run, (load_dict_run _ _ _ Hr), bind_run, IH.
  destruct (p task) eqn:Hp; simpl.
  - rewrite filter_cons_True by done. simpl length.
    unfold mret, Imp.M_ret. do 2 f_equal. lia.
  - rewrite filter_cons_False by congruence. done.
Qed.

(** A comprehension allocates one list object and changes nothing else. *)
Lemma comprehension_run p w l items ts :
  Imp.heap w !! l = Some (Imp.OList items) → dicts_at (Imp.heap w) items ts →
  ∃ kept,
    let l' := fresh (dom (Imp.heap w)) in
    let h' := <[l' := Imp.OList kept]> (Imp.heap w) in
    Imp.comprehension p l w = Some (l', Imp.World h' (Imp.page w)) ∧
    Imp.heap w !! l' = None ∧
    dicts_at h' kept (filter (λ task, p task = true) ts).
Proof.
  intros Hl Hd. destruct (select_run p w items ts Hd) as (kept & Hsel & Hkept).
  exists kept. cbv zeta. split; [|split].
  - unfold Imp.comprehension.
    by rewrite bind_run, (load_list_run _ _ _ Hl), bind_run, Hsel.
  - apply fresh_unused.
  - apply dicts_at_insert; [|done]. intros task. by rewrite fresh_unused.
Qed.

Lemma filter_bool_decide {A} (P : A → Prop) `{!∀ x, Decision (P x)} (l : list A) :
  filter (λ x, bool_decide (P x) = true) l = filter P l.
Proof. apply list_filter_iff. intros x. apply bool_decide_eq_true. Qed.

(** [analyze_daily_productivity] on the store: it allocates the list of
    today's tasks, writes to nothing that existed before, and returns what the
    function on task values returns. *)
Lemma analyze_daily_productivity_run now0 now1 w l ts :
  Imp.tasks_at w l = Some ts →
  ∃ r w',
    Imp.analyze_daily_productivity now0 now1 l w = Some (r, w') ∧
    Imp.heap w ⊆ Imp.heap w' ∧
    Imp.page w' = Imp.page w ∧
    (r.1.1 ≫= Imp.tasks_at w', r.1.2, r.2) = analyze_daily_productivity now0 now1 ts.
Proof.
  intros Hts. destruct (tasks_at_inv _ _ _ Hts) as (items & Hl & Hd).
  destruct (comprehension_run (λ task, bool_decide (Task.due_date task = date_of now0))
              w l items ts Hl Hd) as (kept & Hc & Hfresh & Hkept).
  cbv zeta in Hc, Hkept. rewrite filter_bool_decide in Hkept.
  unfold Imp.analyze_daily_productivity, analyze_daily_productivity.
  set (l' := fresh (dom (Imp.heap w))) in *.
  set (h' := <[l' := Imp.OList kept]> (Imp.heap w)) in *.
  set (w' := Imp.World h' (Imp.page w)) in *.
  set (today_tasks := filter (λ task, Task.due_date task = date_of now0) ts) in *.
  assert (Hl' : Imp.heap w' !! l' = Some (Imp.OList kept)) by apply lookup_insert_eq.
  rewrite bind_run, Hc, bind_run, (load_list_run w' l' kept Hl').
  assert (Hsub : Imp.heap w ⊆ Imp.heap w') by (by apply insert_subseteq).
  assert (Hat : Imp.tasks_at w' l' = Some today_tasks) by (by eapply tasks_at_intro).
  clearbody today_tasks.
  destruct kept as [|r kept].
  - apply Forall2_nil_inv_l in Hkept as ->.
    exists (None, None, None), w'. by repeat split.
  - destruct today_tasks as [|task today_tasks]; [by apply Forall2_cons_nil_inv in Hkept|].
    rewrite bind_run, (count_if_run Task.completed w' _ _ Hkept).
    rewrite (Forall2_length _ _ _ Hkept).
    eexists (_, _, _), w'. split; [reflexivity|]. split; [done|]. split; [done|].
    simpl. by rewrite Hat.
Qed.

Lemma store_run w l o o' :
  Imp.heap w !! l = Some o →
  Imp.store l o' w = Some ((), Imp.World (<[l := o']> (Imp.heap w)) (Imp.page w)).
Proof. intros H. unfold Imp.store. by rewrite H. Qed.

Lemma keyed_run key w items ts :
  dicts_at (Imp.heap w) items ts →
  ∃ ks, Imp.keyed key items w = Some (ks, w) ∧
        Forall2 (λ kr task, kr.1 = key task ∧ Imp.heap w !! kr.2 = Some (Imp.ODict task))
                ks ts.
Proof.
  induction 1 as [|r task items ts Hr _ (ks & IH & Hks)]; simpl.
  - exists []. split; [done|constructor].
  - rewrite bind_run, (load_dict_run _ _ _ Hr), bind_run, IH.
    exists ((key task, r) :: ks). split; [done|]. by constructor.
Qed.

(** Sorting two lists whose elements correspond pairwise, with equal keys,
    rearranges both in the same way. *)
Lemma insert_by_key_related {A B} (R : A → B → Prop) keyA keyB x y l k :
  (∀ a b, R a b → keyA a = keyB b) →
  R x y → Forall2 R l k →
  Forall2 R (insert_by_key keyA x l) (insert_by_key keyB y k).
Proof.
  intros Hkey Hxy. induction 1 as [|a b l k Hab Hlk IH]; simpl.
  - by repeat constructor.
  - rewrite (Hkey x y Hxy), (Hkey a b Hab).
    destruct (keyB y <=? keyB b); by repeat constructor.
Qed.

Lemma list_sort_related {A B} (R : A → B → Prop) keyA keyB l k :
  (∀ a b, R a b → keyA a = keyB b) →
  Forall2 R l k → Forall2 R (list_sort keyA l) (list_sort keyB k).
Proof.
  intros Hkey. induction 1 as [|a b l k Hab Hlk IH]; simpl; [constructor|].
  by apply insert_by_key_related.
Qed.

Lemma sort_in_place_run key w l items ts :
  Imp.heap w !! l = Some (Imp.OList items) → dicts_at (Imp.heap w) items ts →
  ∃ sorted,
    Imp.sort_in_place key l w
      = Some ((), Imp.World (<[l := Imp.OList sorted]> (Imp.heap w)) (Imp.page w)) ∧
    dicts_at (Imp.heap w) sorted (list_sort key ts).
Proof.
  intros Hl Hd. destruct (keyed_run key w items ts Hd) as (ks & Hks & Hrel).
  exists ((list_sort fst ks).*2). split.
  - unfold Imp.sort_in_place.
    rewrite bind_run, (load_list_run _ _ _ Hl), bind_run, Hks. by eapply store_run.
  - unfold dicts_at. apply Forall2_fmap_l.
    eapply Forall2_impl.
    + apply (list_sort_related _ fst key ks ts); [|exact Hrel]. by intros a b [? _].
    + by intros a b [_ ?].
Qed.

Lemma schedule_run timetable items ts :
  ∀ current_time w slots,
    Imp.heap w !! timetable = Some (Imp.OTimetable slots) →
    dicts_at (Imp.heap w) items ts →
    Imp.schedule timetable items current_time w
    = Some ((), Imp.World (<[timetable := Imp.OTimetable (slots ++ slots_from current_time ts)]>
                              (Imp.heap w)) (Imp.page w)).
Proof.
  revert ts. induction items as [|r items IH]; intros ts current_time w slots Htt Hd.
  - apply Forall2_nil_inv_l in Hd as ->. simpl.
    rewrite app_nil_r, insert_id by done. by rewrite world_eta.
  - destruct ts as [|task ts]; [by apply Forall2_cons_nil_inv in Hd|].
    apply Forall2_cons in Hd as [Hr Hd]. simpl.
    rewrite bind_run, (load_dict_run _ _ _ Hr), bind_run.
    unfold Imp.append_slot at 1. rewrite bind_run. unfold Imp.load at 1. rewrite Htt.
    erewrite store_run by exact Htt.
    erewrite IH; cycle 1.
    + simpl. apply lookup_insert_eq.
    + simpl. apply dicts_at_insert; [|exact Hd]. intros t. by rewrite Htt.
    + simpl. by rewrite insert_insert_eq, <- app_assoc.
Qed.

(** [generate_timetable] on the store: it allocates the list of today's open
    tasks and the timetable, sorts its own list, and returns the timetable
    that the function on task values computes. *)
Lemma generate_timetable_run now0 now1 w l ts :
  Imp.tasks_at w l = Some ts →
  ∃ r w',
    Imp.generate_timetable now0 now1 l w = Some (r, w') ∧
    Imp.heap w ⊆ Imp.heap w' ∧
    Imp.page w' = Imp.page w ∧
    ((r = None ∧ generate_timetable now0 now1 ts = None) ∨
     ∃ timetable slots,
       r = Some timetable ∧ Imp.timetable_at w' timetable = Some slots ∧
       generate_timetable now0 now1 ts = Some slots).
Proof.
  intros Hts. destruct (tasks_at_inv _ _ _ Hts) as (items & Hl & Hd).
  destruct (comprehension_run (λ task, bool_decide (due_and_open (date_of now0) task))
              w l items ts Hl Hd) as (kept & Hc & Hfresh & Hkept).
  cbv zeta in Hc, Hkept. rewrite filter_bool_decide in Hkept.
  unfold Imp.generate_timetable, generate_timetable.
  set (l1 := fresh (dom (Imp.heap w))) in *.
  set (h1 := <[l1 := Imp.OList kept]> (Imp.heap w)) in *.
  set (w1 := Imp.World h1 (Imp.page w)) in *.
  set (today_tasks := filter (due_and_open (date_of now0)) ts) in *.
  assert (Hl1 : Imp.heap w1 !! l1 = Some (Imp.OList kept)) by apply lookup_insert_eq.
  rewrite bind_run, Hc, bind_run, (load_list_run w1 l1 kept Hl1).
  clearbody today_tasks.
  destruct kept as [|r kept].
  { apply Forall2_nil_inv_l in Hkept as ->.
    exists None, w1. split; [done|]. split; [by apply insert_subseteq|]. split; [done|].
    by left. }
  destruct today_tasks as [|task today_tasks]; [by apply Forall2_cons_nil_inv in Hkept|].
  set (key := λ x, priority_order (Task.priority x)).
  destruct (sort_in_place_run key w1 l1 _ _ Hl1 Hkept) as (sorted & Hsort & Hsorted).
  set (today_sorted := list_sort key (task :: today_tasks)) in *.
  set (h2 := <[l1 := Imp.OList sorted]> (Imp.heap w1)) in *.
  set (w2 := Imp.World h2 (Imp.page w1)) in *.
  set (l2 := fresh (dom h2)).
  set (h3 := <[l2 := Imp.OTimetable []]> h2).
  set (w3 := Imp.World h3 (Imp.page w2)).
  assert (Hl2 : h2 !! l2 = None) by apply fresh_unused.
  assert (Hd2 : dicts_at h2 sorted today_sorted).
  { apply dicts_at_insert; [|done]. intros t. by rewrite Hl1. }
  assert (Hd3 : dicts_at (Imp.heap w3) sorted today_sorted).
  { apply dicts_at_insert; [|done]. intros t. by rewrite Hl2. }
  assert (Hl1' : Imp.heap w3 !! l1 = Some (Imp.OList sorted)).
  { simpl. unfold h3. rewrite lookup_insert_ne.
    - apply lookup_insert_eq.
    - intros ->. unfold h2 in Hl2. by rewrite lookup_insert_eq in Hl2. }
  assert (Htt : Imp.heap w3 !! l2 = Some (Imp.OTimetable [])) by apply lookup_insert_eq.
  rewrite bind_run, Hsort, bind_run.
  change (Imp.alloc (Imp.OTimetable []) w2) with (Some (l2, w3)). cbv beta iota.
  rewrite bind_run, (load_list_run w3 l1 sorted Hl1'), bind_run.
  rewrite (schedule_run l2 sorted today_sorted now1 w3 [] Htt Hd3).
  eexists (Some l2), _. split; [reflexivity|]. cbn [Imp.heap Imp.page].
  split; [|split; [done|]].
  - assert (H02 : Imp.heap w ⊆ h2).
    { unfold h2, w1, h1. cbn [Imp.heap]. rewrite insert_insert_eq.
      by apply insert_subseteq. }
    unfold w3, h3. cbn [Imp.heap]. rewrite insert_insert_eq.
    etrans; [exact H02|]. by apply insert_subseteq.
  - right. exists l2, (slots_from now1 today_sorted). split; [done|]. split.
    + unfold Imp.timetable_at. cbn [Imp.heap]. by rewrite lookup_insert_eq.
    + by rewrite foldl_allocate.
Qed.

Lemma zip_with_fmap_same {A B C} (f : A → B → C) (g : A → B) (l : list A) :
  zip_with f l (g <$> l) = (λ x, f x (g x)) <$> l.
Proof. induction l as [|x l IH]; [done|]. csimpl. by rewrite IH. Qed.

(** [analyze_productivity] on the store: it allocates the data frame (and
    writes the error box when the model raises), writes to nothing that
    existed before, and returns the frame the function on task values
    computes. *)
Lemma analyze_productivity_run random_forest w l ts :
  Imp.tasks_at w l = Some ts →
  ∃ r w',
    Imp.analyze_productivity random_forest l w = Some (r, w') ∧
    Imp.heap w ⊆ Imp.heap w' ∧
    Imp.page w' = Imp.page w ++ (analyze_productivity random_forest ts).2 ∧
    ((r = None ∧ (analyze_productivity random_forest ts).1 = None) ∨
     ∃ df rows,
       r = Some df ∧ Imp.frame_at w' df = Some rows ∧
       (analyze_productivity random_forest ts).1 = Some rows).
Proof.
  intros Hts. destruct (tasks_at_inv _ _ _ Hts) as (items & Hl & Hd).
  unfold Imp.analyze_productivity, analyze_productivity.
  rewrite bind_run, (load_list_run _ _ _ Hl).
  destruct items as [|r items].
  { apply Forall2_nil_inv_l in Hd as ->. exists None, w.
    split; [done|]. split; [done|]. split; [by rewrite app_nil_r | by left]. }
  destruct ts as [|task ts]; [by apply Forall2_cons_nil_inv in Hd|].
  rewrite bind_run, (load_dicts_run _ _ _ Hd), bind_run.
  set (feats := build_features (task :: ts)).
  set (l1 := fresh (dom (Imp.heap w))).
  set (w1 := Imp.World (<[l1 := Imp.OFrame feats None]> (Imp.heap w)) (Imp.page w)).
  change (Imp.alloc (Imp.OFrame feats None) w) with (Some (l1, w1)). cbv beta iota.
  assert (Hfresh : Imp.heap w !! l1 = None) by apply fresh_unused.
  destruct (random_forest (feature_vector <$> feats) (Feat.is_completed <$> feats))
    as [e|predict_proba1].
  - rewrite bind_run. unfold Imp.st_write. cbv beta iota.
    eexists None, _. split; [reflexivity|]. cbn [Imp.heap Imp.page fst snd].
    split; [by apply insert_subseteq|]. split; [done | by left].
  - rewrite bind_run.
    erewrite store_run by (unfold w1; cbn [Imp.heap]; apply lookup_insert_eq).
    eexists (Some l1), _. split; [reflexivity|]. unfold w1. cbn [Imp.heap Imp.page fst snd].
    rewrite insert_insert_eq, app_nil_r.
    split; [by apply insert_subseteq|]. split; [done|]. right.
    eexists l1, _. split; [done|]. split; [|reflexivity].
    unfold Imp.frame_at. cbn [Imp.heap]. rewrite lookup_insert_eq.
    by rewrite zip_with_fmap_same.
Qed.

(** C9.  On a store where [tasks] refers to a list of task dicts, each of the
    three analyses returns, every object that existed before the call is the
    same object with the same contents afterwards, and [tasks] still denotes
    the same tasks: same length, same order, same field values. *)
Theorem analyses_leave_tasks_unchanged random_forest now0 now1 w tasks ts :
  Imp.tasks_at w tasks = Some ts →
  (∃ r w', Imp.analyze_productivity random_forest tasks w = Some (r, w') ∧
           Imp.heap w ⊆ Imp.heap w' ∧ Imp.tasks_at w' tasks = Some ts) ∧
  (∃ r w', Imp.analyze_daily_productivity now0 now1 tasks w = Some (r, w') ∧
           Imp.heap w ⊆ Imp.heap w' ∧ Imp.tasks_at w' tasks = Some ts) ∧
  (∃ r w', Imp.generate_timetable now0 now1 tasks w = Some (r, w') ∧
           Imp.heap w ⊆ Imp.heap w' ∧ Imp.tasks_at w' tasks = Some ts).
Proof.
  intros Hts.
  assert (Hkeep : ∀ w', Imp.heap w ⊆ Imp.heap w' → Imp.tasks_at w' tasks = Some ts).
  { intros w' Hsub. destruct (tasks_at_inv _ _ _ Hts) as (items & Hl & Hd).
    apply (tasks_at_intro _ _ items).
    - eapply lookup_weaken; [exact Hl | exact Hsub].
    - eapply Forall2_impl; [exact Hd|]. intros r task Hr. simpl in Hr.
      eapply lookup_weaken; [exact Hr | exact Hsub]. }
  split; [|split].
  - destruct (analyze_productivity_run random_forest w tasks ts Hts)
      as (r & w' & Hrun & Hsub & _). exists r, w'. auto.
  - destruct (analyze_daily_productivity_run now0 now1 w tasks ts Hts)
      as (r & w' & Hrun & Hsub & _). exists r, w'. auto.
  - destruct (generate_timetable_run now0 now1 w tasks ts Hts)
      as (r & w' & Hrun & Hsub & _). exists r, w'. auto.
Qed.

(** A store with a session list of two task dicts, one of them due today. *)
Lemma analyses_leave_tasks_unchanged_witness :
  let now := 738000 * US_PER_DAY + 9 * US_PER_HOUR in
  let t1 := Task.mk 1 "report" 738000 High (737999 * US_PER_DAY + 8 * US_PER_HOUR) false in
  let t2 := Task.mk 2 "call" 738002 Low (737999 * US_PER_DAY + 9 * US_PER_HOUR) true in
  let w := Imp.World (<[0%nat := Imp.OList [1%nat; 2%nat]]>
                       (<[1%nat := Imp.ODict t1]> (<[2%nat := Imp.ODict t2]> ∅))) [] in
  let random_forest := λ (_ : list (Z * Z)) (_ : list Z),
                         inr (λ _ : Z * Z, 0.5%float) : string + (Z * Z → float) in
  (∃ r w', Imp.analyze_productivity random_forest 0%nat w = Some (r, w') ∧
           Imp.heap w ⊆ Imp.heap w' ∧ Imp.tasks_at w' 0%nat = Some [t1; t2]) ∧
  (∃ r w', Imp.analyze_daily_productivity now now 0%nat w = Some (r, w') ∧
           Imp.heap w ⊆ Imp.heap w' ∧ Imp.tasks_at w' 0%nat = Some [t1; t2]) ∧
  (∃ r w', Imp.generate_timetable now now 0%nat w = Some (r, w') ∧
           Imp.heap w ⊆ Imp.heap w' ∧ Imp.tasks_at w' 0%nat = Some [t1; t2]).
Proof.
  intros now t1 t2 w random_forest.
  apply (analyses_leave_tasks_unchanged random_forest now now w 0%nat [t1; t2]).
  reflexivity.
Defined.

(** * Further properties of the code *)

(** ** The session: invariants of add, complete and delete *)

Lemma filter_lookup_later {A} (P : A → Prop) `{!∀ x, Decision (P x)} (l : list A) i x :
  filter P l !! i = Some x → ∃ j, (i ≤ j)%nat ∧ l !! j = Some x.
Proof.
  revert i. induction l as [|y l IH]; intros i; [done|].
  rewrite filter_cons. destruct (decide (P y)).
  - destruct i as [|i]; simpl.
    + intros [= ->]. exists 0%nat. split; [lia|done].
    + intros Hi. destruct (IH i Hi) as (j & Hj & Hl). exists (S j). split; [lia|done].
  - intros Hi. destruct (IH i Hi) as (j & Hj & Hl). exists (S j). split; [lia|done].
Qed.

Lemma session_inv_step n tasks a :
  session_inv n tasks →
  session_inv (n + (if decide (creates a) then 1 else 0)) (step tasks a).
Proof.
  intros [Hlen Hinv]. destruct (decide (creates a)) as [Hc|Hc].
  - destruct a as [new_task due_date priority now|k|k]; simpl in Hc; try done.
    simpl. unfold add_task. rewrite Hc. simpl.
    split; [rewrite length_app; simpl; lia|].
    intros i task Hi. apply lookup_app_Some in Hi as [Hi|[Hge Hi]].
    + destruct (Hinv i task Hi) as [? ?]. split; [lia|done].
    + destruct (i - length tasks)%nat as [|m] eqn:Hm; [|done].
      simpl in Hi. injection Hi as <-. simpl. split; [lia|done].
  - rewrite Nat.add_0_r. destruct a as [new_task due_date priority now|k|k]; simpl in *.
    + unfold add_task. destruct (truthy new_task); [done|]. by split.
    + split; [by rewrite length_alter|].
      intros i task Hi. destruct (decide (k = i)) as [->|Hne].
      * rewrite list_lookup_alter_eq in Hi. destruct (tasks !! i) as [t|] eqn:Ht; [|done].
        simpl in Hi. injection Hi as <-. exact (Hinv i t Ht).
      * rewrite list_lookup_alter_ne in Hi by done. by apply Hinv.
    + destruct (tasks !! k) as [t|]; [|by split]. unfold delete_task. split.
      * etrans; [apply length_filter|done].
      * intros i task Hi. apply filter_lookup_later in Hi as (j & Hj & Hl).
        destruct (Hinv j task Hl) as [? ?]. split; [lia|done].
Qed.

Lemma session_inv_run actions : session_inv (added actions) (run actions).
Proof.
  unfold run, added. induction actions as [|a actions IH] using rev_ind.
  - split; [simpl; lia|]. intros i task Hi. done.
  - rewrite foldl_app, filter_app, length_app. simpl.
    rewrite filter_cons, filter_nil.
    pose proof (session_inv_step _ _ a IH) as Hstep.
    destruct (decide (creates a)); simpl in *; exact Hstep.
Qed.

(** X1.  In every session, the task at position [i] (counted from 0) has an
    id of at least [i + 1] and at most the number of tasks created so far,
    and a non-empty description; the list never holds more tasks than were
    created. *)
Theorem session_ids_bounded actions i task :
  run actions !! i = Some task →
  Z.of_nat i + 1 ≤ Task.id task ≤ Z.of_nat (added actions) ∧
  Task.description task ≠ "" ∧
  (length (run actions) ≤ added actions)%nat.
Proof.
  intros Hi. destruct (session_inv_run actions) as [Hlen Hinv].
  destruct (Hinv i task Hi) as [Hid Hd]. split; [done|]. split; [|done].
  intros Hempty. by rewrite Hempty in Hd.
Qed.

Lemma session_ids_bounded_witness :
  let actions := [AddTask "a" 738000 High 0; AddTask "" 738000 Low 1;
                  AddTask "b" 738001 Low 2; Delete 0; AddTask "c" 738000 Medium 3] in
  let task := Task.mk 2 "c" 738000 Medium 3 false in
  Z.of_nat 1 + 1 ≤ Task.id task ≤ Z.of_nat (added actions) ∧
  Task.description task ≠ "" ∧
  (length (run actions) ≤ added actions)%nat.
Proof.
  intros actions task. apply (session_ids_bounded actions 1 task). reflexivity.
Defined.

(** X2.  As long as no task is deleted, the ids of the session are exactly
    1, 2, ..., n in list order, hence unique. *)
Theorem ids_sequential_without_delete actions :
  Forall (λ a, ¬ is_delete a) actions →
  ids (run actions) = seqZ 1 (Z.of_nat (length (run actions))) ∧
  NoDup (ids (run actions)).
Proof.
  intros H. split; [by apply ids_run_without_delete | by apply ids_unique_without_delete].
Qed.

Lemma ids_sequential_without_delete_witness :
  let actions := [AddTask "a" 738000 High 0; Complete 0; AddTask "b" 738001 Low 2;
                  AddTask "" 738001 Low 3; AddTask "c" 738001 Low 4] in
  ids (run actions) = seqZ 1 (Z.of_nat (length (run actions))) ∧
  NoDup (ids (run actions)).
Proof.
  intros actions. apply (ids_sequential_without_delete actions).
  unfold actions. repeat constructor; simpl; tauto.
Defined.

(** X3.  No action rewrites an existing task except for its completion
    flag: every task of the list after an action either agrees with a task of
    the list before it on id, description, due date, priority and creation
    time, or is the task just created by "Add Task", which carries the
    entered fields, the current time and is not completed. *)
Theorem step_keeps_identity tasks a task' :
  task' ∈ step tasks a →
  (∃ task, task ∈ tasks ∧ same_identity task task') ∨
  (∃ new_task due_date priority now,
     a = AddTask new_task due_date priority now ∧ new_task ≠ "" ∧
     task' = Task.mk (Z.of_nat (length tasks) + 1) new_task due_date priority now false).
Proof.
  assert (Hrefl : ∀ t, same_identity t t) by (by intros t; repeat split).
  intros Hin. destruct a as [new_task due_date priority now|k|k]; simpl in Hin.
  - unfold add_task in Hin. destruct new_task as [|c s]; simpl in Hin.
    + left. eauto.
    + apply elem_of_app in Hin as [Hin|Hin]; [left; eauto|].
      apply list_elem_of_singleton in Hin as ->. right. eexists _, _, _, _. by repeat split.
  - left. apply list_elem_of_lookup in Hin as [i Hi].
    destruct (decide (k = i)) as [->|Hne].
    + rewrite list_lookup_alter_eq in Hi. destruct (tasks !! i) as [t|] eqn:Ht; [|done].
      simpl in Hi. injection Hi as <-. exists t. split; [|by repeat split].
      by eapply list_elem_of_lookup_2.
    + rewrite list_lookup_alter_ne in Hi by done. exists task'. split; [|done].
      by eapply list_elem_of_lookup_2.
  - left. exists task'. split; [|done].
    destruct (tasks !! k); [|done]. by apply list_elem_of_filter in Hin as [_ ?].
Qed.

Lemma step_keeps_identity_witness :
  let t1 := Task.mk 1 "a" 738000 High 5 false in
  let t2 := Task.mk 2 "b" 738001 Low 6 false in
  (∃ task, task ∈ [t1; t2] ∧ same_identity task (toggle t2)) ∨
  (∃ new_task due_date priority now,
     Complete 1 = AddTask new_task due_date priority now ∧ new_task ≠ "" ∧
     toggle t2 = Task.mk (Z.of_nat (length [t1; t2]) + 1) new_task due_date priority now false).
Proof.
  intros t1 t2. apply (step_keeps_identity [t1; t2] (Complete 1) (toggle t2)).
  simpl. right. left.
Defined.

(** X4.  Clicking the check mark twice on the same task restores the list;
    one click changes the flag of the task at that position only and keeps
    the length. *)
Theorem complete_twice k tasks :
  step (step tasks (Complete k)) (Complete k) = tasks ∧
  length (step tasks (Complete k)) = length tasks ∧
  (∀ j, j ≠ k → step tasks (Complete k) !! j = tasks !! j) ∧
  (∀ task, tasks !! k = Some task →
     ∃ task', step tasks (Complete k) !! k = Some task' ∧
              same_identity task task' ∧
              Task.completed task' = negb (Task.completed task)).
Proof.
  simpl. split; [|split; [|split]].
  - rewrite list_alter_alter_eq. apply list_alter_id. intros [i d dd p c b]. unfold toggle.
    simpl. by rewrite negb_involutive.
  - apply length_alter.
  - intros j Hj. by apply list_lookup_alter_ne.
  - intros task Hk. exists (toggle task). rewrite list_lookup_alter_eq, Hk.
    by repeat split.
Qed.

(** X5.  The delete button of a listed task removes that task and every
    other task with its id; the list gets shorter by exactly the number of
    tasks that carried the id, so by at least one. *)
Theorem delete_click_shrinks k task tasks :
  tasks !! k = Some task →
  let tasks' := step tasks (Delete k) in
  (task ∉ tasks') ∧
  (length tasks' < length tasks)%nat ∧
  (length tasks' + length (filter (λ t, Task.id t = Task.id task) tasks))%nat = length tasks.
Proof.
  intros Hk tasks'. unfold tasks'. simpl. rewrite Hk. unfold delete_task.
  assert (Hin : task ∈ tasks) by (by eapply list_elem_of_lookup_2).
  split; [|split].
  - intros H. by apply list_elem_of_filter in H as [? _].
  - by apply (length_filter_lt _ _ task); [|intros H].
  - rewrite Nat.add_comm.
    rewrite <- (length_filter_split (λ t, Task.id t = Task.id task) tasks). done.
Qed.

Lemma delete_click_shrinks_witness :
  let t1 := Task.mk 2 "b" 738000 High 1 false in
  let t2 := Task.mk 3 "x" 738000 Medium 5 true in
  let t3 := Task.mk 2 "c" 738000 Low 2 false in
  let tasks' := step [t1; t2; t3] (Delete 2) in
  (t3 ∉ tasks') ∧
  (length tasks' < length [t1; t2; t3])%nat ∧
  (length tasks' + length (filter (λ t, Task.id t = Task.id t3) [t1; t2; t3]))%nat
  = length [t1; t2; t3].
Proof.
  intros t1 t2 t3. apply (delete_click_shrinks 2 t3 [t1; t2; t3]). reflexivity.
Defined.

(** ** The task list display *)

Lemma filtered_tasks_sort show_completed sort_option tasks :
  filtered_tasks show_completed sort_option tasks
  = list_sort (display_key sort_option)
      (filter (λ x, visible show_completed x.2) (positioned tasks)).
Proof. by destruct sort_option. Qed.

Lemma positioned_elem tasks k task :
  (k, task) ∈ positioned tasks ↔ tasks !! k = Some task.
Proof.
  unfold positioned. rewrite elem_of_lookup_imap. split.
  - by intros (i & x & [= -> ->] & Hi).
  - intros Hk. by exists k, task.
Qed.

Lemma positioned_fst tasks : (positioned tasks).*1 = seq 0 (length tasks).
Proof.
  unfold positioned. apply list_eq. intros i.
  rewrite list_lookup_fmap, list_lookup_imap.
  destruct (tasks !! i) as [t|] eqn:Ht; simpl.
  - symmetry. apply lookup_seq. split; [done|]. by eapply lookup_lt_Some.
  - symmetry. apply lookup_seq_ge. by apply lookup_ge_None.
Qed.

Lemma filtered_tasks_elem show_completed sort_option tasks k task :
  (k, task) ∈ filtered_tasks show_completed sort_option tasks
  ↔ tasks !! k = Some task ∧ visible show_completed task.
Proof.
  rewrite filtered_tasks_sort, list_sort_perm, list_elem_of_filter, positioned_elem.
  simpl. tauto.
Qed.

Lemma filtered_tasks_NoDup show_completed sort_option tasks :
  NoDup (filtered_tasks show_completed sort_option tasks).*1.
Proof.
  rewrite filtered_tasks_sort, list_sort_perm.
  eapply (sublist_NoDup _ ((positioned tasks).*1)).
  - rewrite positioned_fst. apply NoDup_seq.
  - apply fmap_sublist, sublist_filter.
Qed.

Lemma filter_all {A} (P : A → Prop) `{!∀ x, Decision (P x)} (l : list A) :
  (∀ x, P x) → filter P l = l.
Proof.
  intros HP. induction l as [|x l IH]; [done|].
  by rewrite filter_cons_True, IH.
Qed.

(** X6.  The display shows exactly the session's tasks that pass the
    "Show completed tasks" filter, each task object once: an entry is
    displayed if and only if it is the task at its position in the session
    and it is not completed or the box is ticked.  With the box ticked the
    display has as many entries as the session has tasks. *)
Theorem filtered_tasks_shows_visible show_completed sort_option tasks :
  (∀ k task,
     (k, task) ∈ filtered_tasks show_completed sort_option tasks
     ↔ tasks !! k = Some task ∧ (show_completed = true ∨ Task.completed task = false)) ∧
  NoDup (filtered_tasks show_completed sort_option tasks).*1 ∧
  length (filtered_tasks true sort_option tasks) = length tasks.
Proof.
  split; [intros k task; apply filtered_tasks_elem|].
  split; [apply filtered_tasks_NoDup|].
  rewrite filtered_tasks_sort, list_sort_perm.
  rewrite filter_all; [apply length_imap|]. intros x. by left.
Qed.

Lemma StronglySorted_mono {A} (R R' : A → A → Prop) (l : list A) :
  (∀ x y, R x y → R' x y) → StronglySorted R l → StronglySorted R' l.
Proof.
  intros HR. induction 1 as [|x l _ IH Hx]; constructor; [done|].
  eapply Forall_impl; [exact Hx|]. intros y. apply HR.
Qed.

(** X7.  The display is ordered by the chosen option: by due date, earliest
    first; by priority, High before Medium before Low; by creation time,
    newest first.  In each case entries with equal keys stay in session
    order. *)
Theorem filtered_tasks_ordered show_completed sort_option tasks :
  let shown := filtered_tasks show_completed sort_option tasks in
  match sort_option with
  | DueDate =>
      StronglySorted (λ x y, Task.due_date x.2 ≤ Task.due_date y.2) shown
  | ByPriority =>
      StronglySorted (λ x y, priority_order (Task.priority x.2)
                             ≤ priority_order (Task.priority y.2)) shown
  | CreationDate =>
      StronglySorted (λ x y, Task.created_at y.2 ≤ Task.created_at x.2) shown
  end ∧
  ∀ c, filter (λ x, display_key sort_option x = c) shown
       = filter (λ x, display_key sort_option x = c)
           (filter (λ x, visible show_completed x.2) (positioned tasks)).
Proof.
  intros shown. unfold shown. split.
  - destruct sort_option; simpl;
      (eapply StronglySorted_mono; [|apply list_sort_sorted]);
      unfold key_le; simpl; intros x y; lia.
  - intros c. rewrite filtered_tasks_sort. apply list_sort_stable.
Qed.

(** X8.  With "Show completed tasks" unticked, the check mark of a displayed
    task marks that task completed and nothing else changes in the session;
    afterwards the display shows the same task objects except that one. *)
Theorem complete_click_hides sort_option j k task tasks :
  filtered_tasks false sort_option tasks !! j = Some (k, task) →
  let tasks' := click Complete false sort_option j tasks in
  tasks' !! k = Some (toggle task) ∧
  Task.completed (toggle task) = true ∧
  (∀ i, i ≠ k → tasks' !! i = tasks !! i) ∧
  k :: (filtered_tasks false sort_option tasks').*1
    ≡ₚ (filtered_tasks false sort_option tasks).*1.
Proof.
  intros Hj tasks'. unfold tasks', click. rewrite Hj. simpl.
  assert (Hin : (k, task) ∈ filtered_tasks false sort_option tasks)
    by (by eapply list_elem_of_lookup_2).
  apply filtered_tasks_elem in Hin as [Hk [Hv|Hv]]; [done|].
  assert (Hk' : alter toggle k tasks !! k = Some (toggle task))
    by (by rewrite list_lookup_alter_eq, Hk).
  assert (Hdone : Task.completed (toggle task) = true) by (simpl; by rewrite Hv).
  split; [done|]. split; [done|].
  split; [intros i Hi; by apply list_lookup_alter_ne|].
  assert (Hmem : ∀ (l : list Task.t) i,
            i ∈ (filtered_tasks false sort_option l).*1
            ↔ ∃ t, l !! i = Some t ∧ Task.completed t = false).
  { intros l i. rewrite list_elem_of_fmap. split.
    - intros ([i' t] & -> & Hit). apply filtered_tasks_elem in Hit as [? [?|?]]; [done|].
      by exists t.
    - intros (t & Hi & Ht). exists (i, t). split; [done|].
      apply filtered_tasks_elem. split; [done|by right]. }
  apply NoDup_Permutation.
  - apply NoDup_cons. split; [|apply filtered_tasks_NoDup].
    rewrite Hmem. intros (t & Ht & Hc). rewrite Hk' in Ht. injection Ht as <-.
    by rewrite Hdone in Hc.
  - apply filtered_tasks_NoDup.
  - intros i. rewrite elem_of_cons, !Hmem. split.
    + intros [->|(t & Ht & Hc)]; [by exists task|].
      destruct (decide (i = k)) as [->|Hne].
      * rewrite Hk' in Ht. injection Ht as <-. by rewrite Hdone in Hc.
      * rewrite list_lookup_alter_ne in Ht by done. by exists t.
    + intros (t & Ht & Hc). destruct (decide (i = k)) as [->|Hne]; [by left|].
      right. exists t. by rewrite list_lookup_alter_ne.
Qed.

Lemma complete_click_hides_witness :
  let t1 := Task.mk 1 "a" 738002 Low 5 false in
  let t2 := Task.mk 2 "b" 738001 High 6 true in
  let t3 := Task.mk 3 "c" 738000 Medium 7 false in
  let tasks' := click Complete false DueDate 0 [t1; t2; t3] in
  tasks' !! 2%nat = Some (toggle t3) ∧
  Task.completed (toggle t3) = true ∧
  (∀ i, i ≠ 2%nat → tasks' !! i = [t1; t2; t3] !! i) ∧
  2%nat :: (filtered_tasks false DueDate tasks').*1
    ≡ₚ (filtered_tasks false DueDate [t1; t2; t3]).*1.
Proof.
  intros t1 t2 t3. apply (complete_click_hides DueDate 0 2 t3 [t1; t2; t3]). reflexivity.
Defined.

(** ** Daily capacity and timetable together *)

(** The three results of [analyze_daily_productivity] in terms of the task
    list. *)
Lemma analyze_daily_productivity_eq now0 now1 tasks :
  let today_tasks := filter (λ task, Task.due_date task = date_of now0) tasks in
  let completed_today := filter (λ task, Task.completed task = true) today_tasks in
  let open_tasks := filter (due_and_open (date_of now0)) tasks in
  analyze_daily_productivity now0 now1 tasks
  = match today_tasks with
    | [] => (None, None, None)
    | _ => (Some today_tasks,
            Some (float_mul (int_truediv (Z.of_nat (length completed_today))
                                         (Z.of_nat (length today_tasks))) 100),
            Some (Z.of_nat (length open_tasks) * 30 <=? (24 - hour_of now1) * 60))
    end.
Proof.
  intros today_tasks completed_today open_tasks. unfold analyze_daily_productivity.
  fold today_tasks. fold completed_today.
  pose proof (length_filter_split (λ task, Task.completed task = true) today_tasks) as Hsplit.
  unfold today_tasks in Hsplit at 2. rewrite open_today in Hsplit.
  fold open_tasks completed_today in Hsplit.
  destruct today_tasks as [|t rest] eqn:Hts; [done|]. rewrite <- Hts in *.
  assert (Hpos : (0 <? Z.of_nat (length today_tasks)) = true)
    by (apply Z.ltb_lt; rewrite Hts; simpl; lia).
  rewrite Hpos. do 3 f_equal. lia.
Qed.

Lemma all_completed_iff (l : list Task.t) :
  filter (λ task, ¬ Task.completed task = true) l = []
  ↔ Forall (λ task, Task.completed task = true) l.
Proof.
  induction l as [|x l IH]; [by split|].
  rewrite Forall_cons. destruct (Task.completed x) eqn:Hx.
  - rewrite filter_cons_False by (rewrite Hx; intros H; by apply H). rewrite IH. tauto.
  - rewrite filter_cons_True by (by rewrite Hx). split; [done|]. by intros [? _].
Qed.

Lemma generate_timetable_None now0 now1 tasks :
  generate_timetable now0 now1 tasks = None
  ↔ filter (due_and_open (date_of now0)) tasks = [].
Proof.
  unfold generate_timetable.
  destruct (filter (due_and_open (date_of now0)) tasks); split; done.
Qed.

(** X9.  On one and the same day: when the daily analysis reports data on
    fewer than 2^53 tasks, the timetable is absent ("No remaining tasks for
    today!") exactly when every task due today is completed, which is
    exactly when the completion rate, a float, is 100: with one task open
    the quotient rounds to at most 1 - 2^-53, and its product with 100
    rounds below 100.  And then the verdict is "can complete". *)
Theorem timetable_absent_when_done now0 now1 now2 now3 tasks today_tasks rate can_complete :
  date_of now2 = date_of now0 →
  analyze_daily_productivity now0 now1 tasks
    = (Some today_tasks, Some rate, Some can_complete) →
  Z.of_nat (length today_tasks) < 2 ^ 53 →
  (generate_timetable now2 now3 tasks = None
   ↔ Forall (λ task, Task.completed task = true) today_tasks) ∧
  (generate_timetable now2 now3 tasks = None ↔ (rate == 100)%Q) ∧
  (generate_timetable now2 now3 tasks = None → can_complete = true).
Proof.
  intros Hday Hres Hsize. rewrite generate_timetable_None, Hday.
  rewrite analyze_daily_productivity_eq in Hres. cbv zeta in Hres.
  pose proof (length_filter_split (λ task, Task.completed task = true)
    (filter (λ task, Task.due_date task = date_of now0) tasks)) as Hsplit.
  rewrite open_today in Hsplit.
  set (open_tasks := filter (due_and_open (date_of now0)) tasks) in *.
  assert (Hopen : open_tasks
    = filter (λ task, ¬ Task.completed task = true)
        (filter (λ task, Task.due_date task = date_of now0) tasks))
    by (by unfold open_tasks; rewrite open_today).
  destruct (filter (λ task, Task.due_date task = date_of now0) tasks)
    as [|t rest] eqn:Hts; [done|]. rewrite <- Hts in *.
  injection Hres as <- <- <-.
  set (today_tasks := filter (λ task, Task.due_date task = date_of now0) tasks) in *.
  assert (Hlen : (0 < length today_tasks)%nat) by (rewrite Hts; simpl; lia).
  assert (Hnil : open_tasks = [] ↔ Forall (λ task, Task.completed task = true) today_tasks).
  { rewrite Hopen. apply all_completed_iff. }
  split; [done|]. split.
  - rewrite percentage_full by lia. split.
    + intros Hnone. rewrite Hnone in Hsplit. simpl in Hsplit. lia.
    + intros Hfull. apply length_zero_iff_nil. lia.
  - intros Hnone. rewrite Hnone. simpl. apply Z.leb_le.
    pose proof (hour_of_range now1). lia.
Qed.

Lemma timetable_absent_when_done_witness :
  let now := 738000 * US_PER_DAY + 20 * US_PER_HOUR in
  let t1 := Task.mk 1 "a" 738000 Low 5 true in
  let t2 := Task.mk 2 "b" 738001 High 6 false in
  (generate_timetable now now [t1; t2] = None
   ↔ Forall (λ task, Task.completed task = true) [t1]) ∧
  (generate_timetable now now [t1; t2] = None ↔ (100 == 100)%Q) ∧
  (generate_timetable now now [t1; t2] = None → true = true).
Proof.
  intros now t1 t2.
  apply (timetable_absent_when_done now now now now [t1; t2] [t1] 100%Q true);
    [reflexivity|by vm_compute|reflexivity].
Defined.

(** X10.  The verdict of the daily analysis only counts whole hours: with at
    most two open tasks due today it is always "can complete", whatever the
    time; with more than 48 it never is; and if the open tasks fit at some
    hour they fit at every earlier hour of the day. *)
Theorem feasible_bounds now0 now1 tasks today_tasks rate can_complete :
  analyze_daily_productivity now0 now1 tasks
    = (Some today_tasks, Some rate, Some can_complete) →
  let open_tasks := filter (due_and_open (date_of now0)) tasks in
  ((length open_tasks ≤ 2)%nat → can_complete = true) ∧
  (can_complete = true → (length open_tasks ≤ 48)%nat) ∧
  (∀ earlier, hour_of earlier ≤ hour_of now1 → can_complete = true →
     analyze_daily_productivity now0 earlier tasks
       = (Some today_tasks, Some rate, Some true)).
Proof.
  intros Hres open_tasks.
  assert (Heq := analyze_daily_productivity_eq now0). cbv zeta in Heq.
  rewrite Heq in Hres. fold open_tasks in Hres, Heq.
  pose proof (hour_of_range now1) as Hh.
  destruct (filter (λ task, Task.due_date task = date_of now0) tasks)
    as [|t rest] eqn:Hts; [done|].
  injection Hres as <- <- <-. rewrite <- Hts.
  split; [|split].
  - intros Hn. apply Z.leb_le. lia.
  - intros Hc. apply Z.leb_le in Hc. lia.
  - intros earlier He Hc. rewrite Heq, Hts. fold open_tasks. do 2 f_equal.
    apply Z.leb_le in Hc. apply Z.leb_le. lia.
Qed.

Lemma feasible_bounds_witness :
  let now := 738000 * US_PER_DAY + 23 * US_PER_HOUR + 59 * US_PER_MINUTE in
  let t1 := Task.mk 1 "a" 738000 High 5 false in
  let t2 := Task.mk 2 "b" 738000 High 6 false in
  let open_tasks := filter (due_and_open (date_of now)) [t1; t2] in
  ((length open_tasks ≤ 2)%nat → true = true) ∧
  (true = true → (length open_tasks ≤ 48)%nat) ∧
  (∀ earlier, hour_of earlier ≤ hour_of now → true = true →
     analyze_daily_productivity now earlier [t1; t2]
       = (Some [t1; t2], Some 0%Q, Some true)).
Proof.
  intros now t1 t2.
  apply (feasible_bounds now now [t1; t2] [t1; t2] 0%Q true). reflexivity.
Defined.

(** ** The shape of the timetable *)

Lemma time_allocation_range p : 30 ≤ time_allocation p ≤ 60.
Proof. destruct p; simpl; lia. Qed.

Lemma slots_from_length current_time today_tasks :
  length (slots_from current_time today_tasks) = length today_tasks.
Proof.
  revert current_time. induction today_tasks as [|t l IH]; intros T; simpl; [done|].
  by rewrite IH.
Qed.

Lemma slots_from_minutes current_time today_tasks :
  30 * Z.of_nat (length today_tasks)
  ≤ total_minutes (slots_from current_time today_tasks)
  ≤ 60 * Z.of_nat (length today_tasks).
Proof.
  revert current_time. induction today_tasks as [|t l IH]; intros T; simpl; [lia|].
  specialize (IH (T + timedelta_minutes (time_allocation (Task.priority t)))).
  pose proof (time_allocation_range (Task.priority t)). unfold total_minutes in *. lia.
Qed.

Lemma slots_from_starts current_time today_tasks :
  Forall (λ slot, current_time ≤ Slot.start_time slot < Slot.end_time slot)
         (slots_from current_time today_tasks).
Proof.
  revert current_time. induction today_tasks as [|t l IH]; intros T; simpl; [constructor|].
  pose proof (time_allocation_range (Task.priority t)).
  assert (0 < timedelta_minutes (time_allocation (Task.priority t)))
    by (unfold timedelta_minutes, US_PER_MINUTE; lia).
  constructor; [simpl; lia|].
  eapply Forall_impl; [apply IH|]. simpl. intros slot. lia.
Qed.

Lemma slots_from_disjoint current_time today_tasks :
  StronglySorted (λ slot slot', Slot.end_time slot ≤ Slot.start_time slot')
                 (slots_from current_time today_tasks).
Proof.
  revert current_time. induction today_tasks as [|t l IH]; intros T; simpl; constructor.
  - apply IH.
  - eapply Forall_impl; [apply slots_from_starts|]. simpl. intros slot. lia.
Qed.

Lemma slots_from_last current_time today_tasks slot :
  last (slots_from current_time today_tasks) = Some slot →
  Slot.end_time slot
  = current_time + timedelta_minutes (total_minutes (slots_from current_time today_tasks)).
Proof.
  revert current_time. induction today_tasks as [|t l IH]; intros T; [done|].
  simpl slots_from.
  specialize (IH (T + timedelta_minutes (time_allocation (Task.priority t)))).
  destruct (slots_from (T + timedelta_minutes (time_allocation (Task.priority t))) l)
    as [|s rest].
  - simpl. intros [= <-]. simpl. unfold timedelta_minutes. lia.
  - rewrite last_cons_cons. intros Hl. rewrite (IH Hl).
    unfold total_minutes, timedelta_minutes. simpl. lia.
Qed.

(** X11.  A timetable has one slot per open task due today.  Every slot
    starts at or after the start time and ends after it starts; slots do not
    overlap: each ends no later than any later slot starts.  The minutes
    allotted in total lie between 30 and 60 per task, so never below the 30
    minutes per task that the daily analysis counts, and the last slot ends
    that many minutes after the start time, with no cut-off at midnight. *)
Theorem timetable_span now0 now1 tasks timetable :
  generate_timetable now0 now1 tasks = Some timetable →
  let n := Z.of_nat (length (filter (due_and_open (date_of now0)) tasks)) in
  Z.of_nat (length timetable) = n ∧ 0 < n ∧
  30 * n ≤ total_minutes timetable ≤ 60 * n ∧
  Forall (λ slot, now1 ≤ Slot.start_time slot < Slot.end_time slot) timetable ∧
  StronglySorted (λ slot slot', Slot.end_time slot ≤ Slot.start_time slot') timetable ∧
  (∀ slot, last timetable = Some slot →
     Slot.end_time slot = now1 + timedelta_minutes (total_minutes timetable)).
Proof.
  intros Hres n. unfold n. unfold generate_timetable in Hres.
  set (today_tasks := filter (due_and_open (date_of now0)) tasks) in *.
  set (key := λ x, priority_order (Task.priority x)) in *.
  assert (Hlen : length (list_sort key today_tasks) = length today_tasks)
    by (by rewrite list_sort_perm).
  destruct today_tasks as [|t l] eqn:Hts; [done|]. rewrite <- Hts in *.
  injection Hres as <-. rewrite foldl_allocate, app_nil_l.
  rewrite slots_from_length, Hlen.
  split; [done|]. split; [rewrite Hts; simpl; lia|].
  split; [rewrite <- Hlen; apply slots_from_minutes|].
  split; [apply slots_from_starts|].
  split; [apply slots_from_disjoint | apply slots_from_last].
Qed.

Lemma timetable_span_witness :
  let T := 738000 * US_PER_DAY + 23 * US_PER_HOUR in
  let task p d := Task.mk 0 d 738000 p (737999 * US_PER_DAY) false in
  let timetable :=
    [Slot.mk "h" High T (T + 60 * US_PER_MINUTE) 60;
     Slot.mk "l" Low (T + 60 * US_PER_MINUTE) (T + 90 * US_PER_MINUTE) 30] in
  let n := Z.of_nat (length (filter (due_and_open (date_of T)) [task Low "l"; task High "h"])) in
  Z.of_nat (length timetable) = n ∧ 0 < n ∧
  30 * n ≤ total_minutes timetable ≤ 60 * n ∧
  Forall (λ slot, T ≤ Slot.start_time slot < Slot.end_time slot) timetable ∧
  StronglySorted (λ slot slot', Slot.end_time slot ≤ Slot.start_time slot') timetable ∧
  (∀ slot, last timetable = Some slot →
     Slot.end_time slot = T + timedelta_minutes (total_minutes timetable)).
Proof.
  intros T task timetable.
  apply (timetable_span T T [task Low "l"; task High "h"] timetable). reflexivity.
Defined.

Lemma insert_by_key_front {A} (key : A → Z) (x : A) (l : list A) :
  Forall (λ y, key x ≤ key y) l → insert_by_key key x l = x :: l.
Proof.
  destruct 1 as [|y l Hy _]; simpl; [done|].
  by rewrite (proj2 (Z.leb_le _ _) Hy).
Qed.

Lemma insert_by_key_skip {A} (key : A → Z) (x : A) (l1 l2 : list A) :
  Forall (λ y, key y < key x) l1 →
  insert_by_key key x (l1 ++ l2) = l1 ++ insert_by_key key x l2.
Proof.
  induction 1 as [|y l1 Hy _ IH]; simpl; [done|].
  rewrite (proj2 (Z.leb_gt _ _) Hy). by rewrite IH.
Qed.

Lemma list_sort_priority_blocks (l : list Task.t) :
  list_sort (λ x, priority_order (Task.priority x)) l
  = filter (λ x, Task.priority x = High) l
    ++ filter (λ x, Task.priority x = Medium) l
    ++ filter (λ x, Task.priority x = Low) l.
Proof.
  induction l as [|x l IH]; [done|]. simpl list_sort. rewrite IH.
  rewrite !(filter_cons _ x).
  assert (HF : ∀ p (P : Z → Prop), P (priority_order p) →
            Forall (λ y, P (priority_order (Task.priority y)))
                   (filter (λ y, Task.priority y = p) l)).
  { intros p P HP. apply Forall_forall. intros y Hy.
    apply list_elem_of_filter in Hy as [-> _]. done. }
  destruct (Task.priority x) eqn:Hx.
  - rewrite !decide_False, decide_True by done.
    rewrite app_assoc, insert_by_key_skip, insert_by_key_front, <- app_assoc; [done|..].
    + cbv beta. rewrite Hx. apply (HF Low (λ k, priority_order Low ≤ k)). simpl. lia.
    + cbv beta. rewrite Hx. apply Forall_app. split.
      * apply (HF High (λ k, k < priority_order Low)). simpl. lia.
      * apply (HF Medium (λ k, k < priority_order Low)). simpl. lia.
  - rewrite decide_False, decide_True, decide_False by done.
    rewrite insert_by_key_skip, insert_by_key_front; [done|..].
    + cbv beta. rewrite Hx. apply Forall_app. split.
      * apply (HF Medium (λ k, priority_order Medium ≤ k)). simpl. lia.
      * apply (HF Low (λ k, priority_order Medium ≤ k)). simpl. lia.
    + cbv beta. rewrite Hx. apply (HF High (λ k, k < priority_order Medium)). simpl. lia.
  - rewrite decide_True, !decide_False by done.
    rewrite insert_by_key_front; [done|].
    cbv beta. rewrite Hx. apply Forall_app. split; [|apply Forall_app; split].
    + apply (HF High (λ k, priority_order High ≤ k)). simpl. lia.
    + apply (HF Medium (λ k, priority_order High ≤ k)). simpl. lia.
    + apply (HF Low (λ k, priority_order High ≤ k)). simpl. lia.
Qed.

(** X12.  The timetable lists the open High tasks due today in session
    order, then the open Medium tasks, then the open Low tasks, laid out back
    to back from the start time; tasks that are completed or due on another
    day have no influence on it. *)
Theorem timetable_blocks now0 now1 tasks :
  let today_tasks := filter (due_and_open (date_of now0)) tasks in
  let of_priority p := filter (λ x, Task.priority x = p) today_tasks in
  generate_timetable now0 now1 tasks
  = match today_tasks with
    | [] => None
    | _ => Some (slots_from now1 (of_priority High ++ of_priority Medium ++ of_priority Low))
    end ∧
  ∀ other, Forall (λ x, ¬ due_and_open (date_of now0) x) other →
    ∀ l1 l2, tasks = l1 ++ l2 →
      generate_timetable now0 now1 (l1 ++ other ++ l2) = generate_timetable now0 now1 tasks.
Proof.
  intros today_tasks of_priority. unfold of_priority. clear of_priority. split.
  - unfold generate_timetable. fold today_tasks. clearbody today_tasks.
    destruct today_tasks as [|t l]; [done|].
    by rewrite foldl_allocate, list_sort_priority_blocks.
  - intros other Hother l1 l2 ->. unfold generate_timetable.
    rewrite !filter_app.
    assert (Hnil : filter (due_and_open (date_of now0)) other = []).
    { induction Hother as [|x l Hx _ IH]; [done|]. by rewrite filter_cons_False. }
    by rewrite Hnil.
Qed.

(** ** The label encoder and the feature rows *)

Lemma index_of_le_fit col p :
  p ∈ col → index_of p (le_fit col) = code_of col p.
Proof.
  intros Hp. unfold le_fit. rewrite !filter_cons, filter_nil.
  destruct p; unfold code_of;
    destruct (decide (High ∈ col)), (decide (Low ∈ col)), (decide (Medium ∈ col));
    try done; reflexivity.
Qed.

Lemma le_fit_transform_code_of col : le_fit_transform col = code_of col <$> col.
Proof.
  unfold le_fit_transform. apply Forall_fmap_ext, Forall_forall.
  intros p Hp. by apply index_of_le_fit.
Qed.

(** X13.  The encoder fitted on a priority column gives each priority the
    number of distinct priorities of the column whose label sorts before it
    ("High" < "Low" < "Medium"): High is always 0, Low is 1 when High occurs
    and 0 otherwise, Medium counts High and Low.  So the codes of one column
    are distinct for distinct priorities and lie below the number of classes,
    but the code of a priority changes with the other priorities present. *)
Theorem le_fit_transform_codes col :
  le_fit_transform col = code_of col <$> col ∧
  (∀ p q, p ∈ col → q ∈ col → code_of col p = code_of col q → p = q) ∧
  (∀ p, p ∈ col → 0 ≤ code_of col p < Z.of_nat (length (le_fit col))) ∧
  (String.ltb (priority_label High) (priority_label Low) = true ∧
   String.ltb (priority_label Low) (priority_label Medium) = true).
Proof.
  split; [apply le_fit_transform_code_of|]. split; [|split; [|by split]].
  - intros p q Hp Hq. unfold code_of.
    destruct p, q; try done;
      destruct (decide (High ∈ col)), (decide (Low ∈ col)); try done; lia.
  - intros p Hp. unfold le_fit. rewrite !filter_cons, filter_nil. unfold code_of.
    destruct p;
      destruct (decide (High ∈ col)), (decide (Low ∈ col)), (decide (Medium ∈ col));
      try done; simpl; lia.
Qed.

Lemma build_features_rows tasks :
  Forall2 (λ task f,
      Feat.task f = task ∧
      Feat.days_to_due f = days_to_due task ∧
      Feat.is_completed f = (if Task.completed task then 1 else 0) ∧
      Feat.priority_encoded f = code_of (Task.priority <$> tasks) (Task.priority task))
    tasks (build_features tasks).
Proof.
  unfold build_features. rewrite le_fit_transform_code_of.
  apply Forall2_same_length_lookup_2.
  - rewrite length_zip_with_l_eq; [done|]. by rewrite !length_fmap.
  - intros i task f Ht Hf. apply lookup_zip_with_Some in Hf as (t & c & -> & Ht' & Hc).
    rewrite Ht in Ht'. injection Ht' as <-.
    rewrite !list_lookup_fmap, Ht in Hc. simpl in Hc. injection Hc as <-. done.
Qed.

(** X14.  [analyze_productivity] returns no frame and writes nothing for an
    empty list.  For a non-empty list it fits the model once on the feature
    rows of all tasks; if the model raises, the text of the exception is
    shown in one error box and no frame is returned; otherwise nothing is
    written and the frame has one row per task, in task order, holding the
    task's own columns, its days to due, its completion as 0 or 1, its
    priority code and the model's probability for (days to due, code). *)
Theorem analyze_productivity_rows random_forest task rest :
  let tasks := task :: rest in
  let feats := build_features tasks in
  let col := Task.priority <$> tasks in
  analyze_productivity random_forest [] = (None, []) ∧
  match random_forest (feature_vector <$> feats) (Feat.is_completed <$> feats) with
  | inl e =>
      analyze_productivity random_forest tasks
      = (None, [st_error ("Error in productivity analysis: " +:+ e)])
  | inr predict_proba1 =>
      ∃ df, analyze_productivity random_forest tasks = (Some df, []) ∧
            Forall2 (row_of col predict_proba1) tasks df
  end.
Proof.
  intros tasks feats col. split; [done|].
  unfold analyze_productivity. fold tasks. unfold tasks at 1. fold feats.
  destruct (random_forest (feature_vector <$> feats) (Feat.is_completed <$> feats))
    as [e|predict_proba1]; [done|].
  eexists. split; [reflexivity|]. apply Forall2_fmap_r.
  eapply Forall2_impl; [apply build_features_rows|].
  intros t f (H1 & H2 & H3 & H4). unfold row_of, feature_vector. simpl.
  fold col in H4. rewrite H1, H2, H3, H4. done.
Qed.

(** ** The dashboard metrics *)

Lemma analyze_productivity_frame random_forest tasks df :
  (analyze_productivity random_forest tasks).1 = Some df →
  tasks ≠ [] ∧
  ∃ predict_proba1, Forall2 (row_of (Task.priority <$> tasks) predict_proba1) tasks df.
Proof.
  destruct tasks as [|task rest]; [done|].
  unfold analyze_productivity. cbv beta iota zeta.
  set (tasks := task :: rest). set (feats := build_features tasks).
  destruct (random_forest (feature_vector <$> feats) (Feat.is_completed <$> feats))
    as [e|predict_proba1]; [done|].
  cbn [fst]. intros Hdf. apply (inj Some) in Hdf. subst df.
  split; [done|]. exists predict_proba1.
  apply Forall2_fmap_r. eapply Forall2_impl; [apply build_features_rows|].
  intros t f (H1 & H2 & H3 & H4). unfold row_of, feature_vector. simpl.
  rewrite H1, H2, H3, H4. done.
Qed.

Lemma completed_tasks_count col predict_proba1 tasks df :
  Forall2 (row_of col predict_proba1) tasks df →
  completed_tasks df
  = Z.of_nat (length (filter (λ task, Task.completed task = true) tasks)).
Proof.
  induction 1 as [|task r tasks df (_ & _ & Hc & _) _ IH]; [done|].
  unfold completed_tasks in *. simpl. rewrite IH, Hc.
  destruct (Task.completed task) eqn:Ht.
  - rewrite filter_cons_True by done. simpl length. lia.
  - rewrite filter_cons_False by (rewrite Ht; done). lia.
Qed.

(** X15.  When [analyze_productivity] returns a frame of fewer than 2^53
    rows, the dashboard's metrics are well defined: the total is the number
    of tasks and is not zero, so the completion rate never divides by zero;
    the completed count is the number of completed tasks; the two counts
    convert to float64 without rounding, so the rate is the float computed
    from the counts themselves, and it lies between 0 and 100; and there are
    at most as many high-risk tasks as tasks. *)
Theorem dashboard_metrics random_forest tasks df :
  (analyze_productivity random_forest tasks).1 = Some df →
  total_tasks df < 2 ^ 53 →
  total_tasks df = Z.of_nat (length tasks) ∧
  0 < total_tasks df ∧
  completed_tasks df
  = Z.of_nat (length (filter (λ task, Task.completed task = true) tasks)) ∧
  completion_rate df
  = float_mul (int_truediv (completed_tasks df) (total_tasks df)) 100 ∧
  (0 <= completion_rate df <= 100)%Q ∧
  (length (high_risk_tasks df) ≤ length tasks)%nat.
Proof.
  intros Hdf Hsize. destruct (analyze_productivity_frame _ _ _ Hdf) as (Hne & predict & Hrows).
  pose proof (Forall2_length _ _ _ Hrows) as Hlen.
  pose proof (completed_tasks_count _ _ _ _ Hrows) as Hc.
  assert (Hpos : (0 < length tasks)%nat) by (destruct tasks; [done|simpl; lia]).
  pose proof (length_filter (λ task, Task.completed task = true) tasks) as Hle.
  assert (Hrate : completion_rate df
                  = float_mul (int_truediv (completed_tasks df) (total_tasks df)) 100).
  { unfold completion_rate. rewrite float_div_of_int; [done|unfold total_tasks in *; lia..]. }
  rewrite Hrate. unfold total_tasks in *.
  split; [lia|]. split; [lia|]. split; [done|]. split; [done|]. split.
  - rewrite Hc. apply percentage_range; lia.
  - rewrite Hlen. apply length_filter.
Qed.

Lemma dashboard_metrics_witness :
  let t1 := Task.mk 1 "a" 738003 High (738000 * US_PER_DAY + 5) true in
  let t2 := Task.mk 2 "b" 738001 Low (738000 * US_PER_DAY + 6) false in
  let random_forest := λ (_ : list (Z * Z)) (_ : list Z),
                         inr (λ x : Z * Z, if x.2 =? 0 then 0.9%float else 0.1%float)
                         : string + (Z * Z → float) in
  let df := [Row.mk (Feat.mk t1 2 1 0) 0.9%float; Row.mk (Feat.mk t2 0 0 1) 0.1%float] in
  total_tasks df = Z.of_nat (length [t1; t2]) ∧
  0 < total_tasks df ∧
  completed_tasks df
  = Z.of_nat (length (filter (λ task, Task.completed task = true) [t1; t2])) ∧
  completion_rate df
  = float_mul (int_truediv (completed_tasks df) (total_tasks df)) 100 ∧
  (0 <= completion_rate df <= 100)%Q ∧
  (length (high_risk_tasks df) ≤ length [t1; t2])%nat.
Proof.
  intros t1 t2 random_forest df.
  apply (dashboard_metrics random_forest [t1; t2] df); [reflexivity|by vm_compute].
Defined.

Lemma three_way_split (df : list Row.t) :
  filter (λ r, row_priority r = High) df
  ++ filter (λ r, row_priority r = Low) df
  ++ filter (λ r, row_priority r = Medium) df ≡ₚ df.
Proof.
  induction df as [|r df IH]; [done|]. rewrite !(filter_cons _ r).
  destruct (row_priority r); simpl.
  - symmetry. etrans; [|apply Permutation_middle]. by constructor.
  - rewrite app_assoc. symmetry. etrans; [|apply Permutation_middle].
    rewrite <- app_assoc. by constructor.
  - by constructor.
Qed.

Lemma absent_group df p :
  p ∉ row_priority <$> df → filter (λ r, row_priority r = p) df = [].
Proof.
  intros Hp. induction df as [|r df IH]; [done|].
  rewrite fmap_cons, not_elem_of_cons in Hp. destruct Hp as [Hne Hp].
  rewrite filter_cons_False by done. by apply IH.
Qed.

Lemma groupby_priority_concat df :
  concat (groupby_priority df).*2
  = filter (λ r, row_priority r = High) df
    ++ filter (λ r, row_priority r = Low) df
    ++ filter (λ r, row_priority r = Medium) df.
Proof.
  unfold groupby_priority, le_fit. rewrite !filter_cons, filter_nil.
  destruct (decide (High ∈ row_priority <$> df)) as [|HH];
    destruct (decide (Low ∈ row_priority <$> df)) as [|HL];
    destruct (decide (Medium ∈ row_priority <$> df)) as [|HM]; simpl;
    rewrite ?app_nil_r;
    rewrite ?(absent_group df High) by done;
    rewrite ?(absent_group df Low) by done;
    rewrite ?(absent_group df Medium) by done;
    by rewrite ?app_nil_r.
Qed.

Lemma task_count_sum (groups : list (Priority * list Row.t)) :
  foldr (λ pc acc, pc.2 + acc) 0 ((λ pg, (pg.1, total_tasks pg.2)) <$> groups)
  = Z.of_nat (length (concat groups.*2)).
Proof.
  induction groups as [|[p g] gs IH]; [done|].
  csimpl. rewrite length_app, Nat2Z.inj_add, <- IH. reflexivity.
Qed.

(** X16.  Grouping a frame by priority cuts it into non-empty groups, one
    per priority that occurs, listed in the order High, Low, Medium of their
    sorted labels; each group holds the rows of its priority in frame order,
    the groups together are a rearrangement of the frame, and the task counts
    of the groups add up to the number of rows. *)
Theorem groupby_priority_partition (df : list Row.t) :
  let groups := groupby_priority df in
  groups.*1 `sublist_of` [High; Low; Medium] ∧
  (∀ p, p ∈ groups.*1 ↔ ∃ r, r ∈ df ∧ row_priority r = p) ∧
  Forall (λ pg, pg.2 ≠ [] ∧ pg.2 = filter (λ r, row_priority r = pg.1) df) groups ∧
  concat groups.*2 ≡ₚ df ∧
  foldr (λ pc acc, pc.2 + acc) 0 (task_count df) = total_tasks df.
Proof.
  intros groups.
  assert (Hkeys : groups.*1 = le_fit (row_priority <$> df)).
  { unfold groups, groupby_priority. rewrite <- list_fmap_compose.
    apply list_fmap_id. }
  assert (Hperm : concat groups.*2 ≡ₚ df).
  { unfold groups. rewrite groupby_priority_concat. apply three_way_split. }
  split; [rewrite Hkeys; apply sublist_filter|]. split; [|split; [|split; [done|]]].
  - intros p. rewrite Hkeys. unfold le_fit. rewrite list_elem_of_filter, list_elem_of_fmap.
    split.
    + intros [(r & -> & Hr) _]. by exists r.
    + intros (r & Hr & <-). split; [by exists r|]. destruct (row_priority r); set_solver.
  - unfold groups, groupby_priority. apply Forall_fmap, Forall_forall.
    intros p Hp. simpl. split; [|done].
    apply list_elem_of_filter in Hp as [Hp _]. apply list_elem_of_fmap in Hp as (r & -> & Hr).
    intros Hnil. eapply (filter_nil_not_elem_of _ _ r Hnil); done.
  - unfold total_tasks at 1. rewrite <- (Permutation_length Hperm). apply task_count_sum.
Qed.

Lemma completed_tasks_range (g : list Row.t) :
  Forall (λ r, 0 ≤ Feat.is_completed (Row.feat r) ≤ 1) g →
  0 ≤ completed_tasks g ≤ total_tasks g.
Proof.
  unfold completed_tasks, total_tasks. induction 1 as [|r g Hr _ IH]; simpl; lia.
Qed.

Lemma rows_priorities col predict_proba1 tasks df :
  Forall2 (row_of col predict_proba1) tasks df →
  row_priority <$> df = Task.priority <$> tasks.
Proof.
  induction 1 as [|task r tasks df (Ht & _) _ IH]; [done|].
  rewrite !fmap_cons, IH. unfold row_priority at 1. by rewrite Ht.
Qed.

(** X17.  For a frame of fewer than 2^53 rows returned by
    [analyze_productivity], the completion rates by priority are listed for
    exactly the priorities of the tasks, in the order of their sorted
    labels, and each rate, the float quotient of a group's completed count
    and its size, lies between 0 and 1. *)
Theorem priority_stats_rates random_forest tasks df :
  (analyze_productivity random_forest tasks).1 = Some df →
  total_tasks df < 2 ^ 53 →
  (priority_stats df).*1 = le_fit (Task.priority <$> tasks) ∧
  Forall (λ pm, (0 <= pm.2 <= 1)%Q) (priority_stats df).
Proof.
  intros Hdf Hsize. destruct (analyze_productivity_frame _ _ _ Hdf) as (_ & predict & Hrows).
  pose proof (rows_priorities _ _ _ _ Hrows) as Hcol.
  assert (Hbits : Forall (λ r, 0 ≤ Feat.is_completed (Row.feat r) ≤ 1) df).
  { eapply Forall2_Forall_r; [exact Hrows|]. apply Forall_true.
    intros task r (_ & _ & Hc & _). rewrite Hc. destruct (Task.completed task); lia. }
  split.
  - unfold priority_stats, groupby_priority. rewrite <- !list_fmap_compose, <- Hcol.
    apply list_fmap_id.
  - unfold priority_stats, groupby_priority. rewrite <- list_fmap_compose.
    apply Forall_fmap, Forall_forall. intros p Hp. simpl.
    apply list_elem_of_filter in Hp as [Hp _]. apply list_elem_of_fmap in Hp as (r & -> & Hr).
    set (g := filter (λ r0, row_priority r0 = row_priority r) df).
    assert (Hg : Forall (λ r, 0 ≤ Feat.is_completed (Row.feat r) ≤ 1) g).
    { apply Forall_forall. intros x Hx. apply list_elem_of_filter in Hx as [_ Hx].
      by eapply Forall_forall in Hbits. }
    pose proof (completed_tasks_range g Hg) as Hcg.
    assert (Hsub : total_tasks g ≤ total_tasks df).
    { unfold total_tasks. apply inj_le, length_filter. }
    rewrite float_div_of_int by lia.
    apply int_truediv_range; [done|].
    unfold total_tasks. destruct g eqn:Hgn; [|simpl; lia].
    exfalso. eapply (filter_nil_not_elem_of _ _ r Hgn); done.
Qed.

Lemma priority_stats_rates_witness :
  let t1 := Task.mk 1 "a" 738003 High (738000 * US_PER_DAY + 5) true in
  let t2 := Task.mk 2 "b" 738001 Low (738000 * US_PER_DAY + 6) false in
  let df := [Row.mk (Feat.mk t1 2 1 0) 0.9%float; Row.mk (Feat.mk t2 0 0 1) 0.1%float] in
  (priority_stats df).*1 = le_fit (Task.priority <$> [t1; t2]) ∧
  Forall (λ pm, (0 <= pm.2 <= 1)%Q) (priority_stats df).
Proof.
  intros t1 t2 df.
  apply (priority_stats_rates
           (λ _ _, inr (λ x : Z * Z, if x.2 =? 0 then 0.9%float else 0.1%float))
           [t1; t2] df); [reflexivity|by vm_compute].
Defined.

(** ** The offline trainer: features and edge cases *)

Lemma train_test_split_None {A B} permutation (X : list A) (y : list B) seed :
  length y = length X →
  train_test_split permutation X y (2 # 10) seed = None ↔ (length X < 2)%nat.
Proof.
  intros Hy. unfold train_test_split. rewrite fifth_ceiling.
  pose proof (fifth_ceiling_bounds (length X)) as Hb. cbv zeta in Hb.
  set (n_test := Z.to_nat ((Z.of_nat (length X) + 4) / 5)) in *. clearbody n_test.
  case_decide as Hd; split; try done; intros Hn.
  - exfalso. lia.
  - destruct (decide (length X < 2)%nat) as [|Hge]; [done|].
    exfalso. apply Hd. split; [done|]. lia.
Qed.

(** X18.  The trainer fails (scikit-learn raises [ValueError] on an empty
    training set) exactly when the CSV has fewer than two rows, whatever
    permutation is drawn; from two rows on the split succeeds, a classifier
    is fitted and there is one prediction per test row. *)
Theorem trainer_needs_two_rows permutation random_forest_fit df :
  (trainer_split permutation df = None ↔ (length df < 2)%nat) ∧
  (trainer permutation random_forest_fit df = None ↔ (length df < 2)%nat) ∧
  (∀ clf y_test y_pred,
     trainer permutation random_forest_fit df = Some (clf, y_test, y_pred) →
     ∃ X_train X_test y_train,
       trainer_split permutation df = Some (X_train, X_test, y_train, y_test) ∧
       clf = random_forest_fit X_train y_train ∧
       y_pred = clf <$> X_test).
Proof.
  assert (Hsplit : trainer_split permutation df = None ↔ (length df < 2)%nat).
  { unfold trainer_split. rewrite train_test_split_None.
    - by rewrite length_trainer_features.
    - by rewrite length_trainer_features, length_trainer_target. }
  split; [done|]. split.
  - rewrite <- Hsplit. unfold trainer.
    destruct (trainer_split permutation df) as [[[[? ?] ?] ?]|]; split; done.
  - intros clf y_test y_pred. unfold trainer.
    destruct (trainer_split permutation df) as [[[[Xtr Xte] ytr] yte]|]; [|done].
    intros [= <- <- <-]. by exists Xtr, Xte, ytr.
Qed.

Lemma dayofweek_range dt : 0 ≤ dayofweek dt ≤ 6.
Proof.
  unfold dayofweek. pose proof (Z.mod_pos_bound (date_of dt + 6) 7 ltac:(lia)). lia.
Qed.

(** X19.  The trainer's feature matrix has one row per CSV row, in order:
    the days until due, the hour of creation between 0 and 23, the weekday of
    creation between 0 (Monday) and 6, and the priority code of the encoder
    fitted on the whole column; the target is the completion flag as 0 or
    1. *)
Theorem trainer_features_rows df :
  let col := Task.priority <$> df in
  Forall2 (λ row x,
      x.1.1.1 = days_to_due row ∧
      x.1.1.2 = hour_of (Task.created_at row) ∧ 0 ≤ x.1.1.2 ≤ 23 ∧
      x.1.2 = dayofweek (Task.created_at row) ∧ 0 ≤ x.1.2 ≤ 6 ∧
      x.2 = code_of col (Task.priority row) ∧ 0 ≤ x.2 ≤ 2)
    df (trainer_features df) ∧
  Forall2 (λ row v, v = if Task.completed row then 1 else 0) df (trainer_target df).
Proof.
  intros col. split.
  - unfold trainer_features. rewrite le_fit_transform_code_of. fold col.
    apply Forall2_same_length_lookup_2.
    + rewrite length_zip_with_l_eq; [done|]. unfold col. by rewrite !length_fmap.
    + intros i row x Hr Hx. apply lookup_zip_with_Some in Hx as (t & c & -> & Ht & Hc).
      rewrite Hr in Ht. injection Ht as <-.
      unfold col in Hc. rewrite !list_lookup_fmap, Hr in Hc. simpl in Hc.
      injection Hc as <-. simpl.
      pose proof (hour_of_range (Task.created_at row)).
      pose proof (dayofweek_range (Task.created_at row)).
      repeat split; try lia.
      all: unfold code_of; destruct (Task.priority row);
        repeat case_decide; lia.
  - unfold trainer_target. apply Forall2_fmap_r, Forall_Forall2_diag, Forall_true. done.
Qed.

Lemma take_rows_zip {A B} (X : list A) (y : list B) (idx : list nat) :
  length y = length X →
  Forall (λ i, (i < length X)%nat) idx →
  zip (take_rows X idx) (take_rows y idx) = take_rows (zip X y) idx.
Proof.
  intros Hy. unfold take_rows. induction 1 as [|i idx Hi _ IH]; [done|]. csimpl.
  destruct (lookup_lt_is_Some_2 X i Hi) as [x Hx].
  destruct (lookup_lt_is_Some_2 y i ltac:(lia)) as [v Hv].
  assert (Hz : zip X y !! i = Some (x, v)).
  { apply lookup_zip_with_Some. by exists x, v. }
  rewrite Hx, Hv, Hz. simpl. by rewrite IH.
Qed.

(** X20.  The split keeps every feature row with its own label: pairing the
    training features with the training labels and the test features with
    the test labels gives, together, a rearrangement of the labelled rows of
    the data, so each labelled row lands in exactly one of the two parts. *)
Theorem trainer_split_keeps_rows_together permutation df X_train X_test y_train y_test :
  (∀ seed n, permutation seed n ≡ₚ seq 0 n) →
  trainer_split permutation df = Some (X_train, X_test, y_train, y_test) →
  length X_train = length y_train ∧
  length X_test = length y_test ∧
  zip X_train y_train ++ zip X_test y_test
    ≡ₚ zip (trainer_features df) (trainer_target df).
Proof.
  intros Hvalid Hsplit.
  set (X := trainer_features df) in *. set (y := trainer_target df) in *.
  assert (Hy : length y = length X)
    by (unfold X, y; by rewrite length_trainer_features, length_trainer_target).
  assert (Hn : (2 ≤ length X)%nat).
  { destruct (decide (2 ≤ length X)%nat) as [|Hlt]; [done|].
    unfold trainer_split in Hsplit. fold X y in Hsplit.
    rewrite (proj2 (train_test_split_None permutation X y 42 Hy)) in Hsplit by lia. done. }
  unfold trainer_split in Hsplit. fold X y in Hsplit.
  rewrite (train_test_split_fifth permutation Hvalid X y 42 Hy Hn) in Hsplit.
  cbv zeta in Hsplit. injection Hsplit as <- <- <- <-.
  set (n_test := Z.to_nat ((Z.of_nat (length X) + 4) / 5)).
  set (p := permutation 42 (length X)).
  destruct (permutation_in_range permutation Hvalid 42 (length X)) as [Hlen Hrange].
  fold p in Hlen, Hrange.
  assert (Hr1 : Forall (λ i, (i < length X)%nat) (take n_test p)) by (by apply Forall_take).
  assert (Hr2 : Forall (λ i, (i < length X)%nat) (drop n_test p)) by (by apply Forall_drop).
  assert (Hr1' : Forall (λ i, (i < length y)%nat) (take n_test p)) by (by rewrite Hy).
  assert (Hr2' : Forall (λ i, (i < length y)%nat) (drop n_test p)) by (by rewrite Hy).
  split; [by rewrite !length_take_rows|]. split; [by rewrite !length_take_rows|].
  rewrite !take_rows_zip by done. unfold take_rows. rewrite <- omap_app.
  rewrite (Permutation_app_comm (drop n_test p)), take_drop.
  apply take_rows_perm. rewrite length_zip_with_l_eq by done. apply Hvalid.
Qed.

Lemma trainer_split_keeps_rows_together_witness :
  let row k c := Task.mk k "t" 738003 Medium (738000 * US_PER_DAY + k * US_PER_HOUR) c in
  let df := [row 1 true; row 2 false; row 3 false; row 4 true; row 5 false] in
  let X_train := [(2, 4, 3, 0); (2, 3, 3, 0); (2, 2, 3, 0); (2, 1, 3, 0)] in
  let X_test := [(2, 5, 3, 0)] in
  let y_train := [1; 0; 0; 1] in
  let y_test := [0] in
  length X_train = length y_train ∧
  length X_test = length y_test ∧
  zip X_train y_train ++ zip X_test y_test
    ≡ₚ zip (trainer_features df) (trainer_target df).
Proof.
  intros row df X_train X_test y_train y_test.
  apply (trainer_split_keeps_rows_together (λ _ n, reverse (seq 0 n)) df
           X_train X_test y_train y_test).
  - intros _ n. apply reverse_Permutation.
  - reflexivity.
Defined.

(** ** The analyses on the object store agree with the functions on values *)

Lemma select_run_sublist p w items ts :
  dicts_at (Imp.heap w) items ts →
  ∃ kept, Imp.select p items w = Some (kept, w) ∧
          dicts_at (Imp.heap w) kept (filter (λ task, p task = true) ts) ∧
          kept `sublist_of` items.
Proof.
  induction 1 as [|r task items ts Hr _ (kept & IH & Hkept & Hsub)]; simpl.
  - exists []. split; [done|]. split; constructor.
  - rewrite bind_run, (load_dict_run _ _ _ Hr), bind_run, IH.
    destruct (p task) eqn:Hp; simpl.
    + exists (r :: kept). split; [done|]. rewrite filter_cons_True by done.
      split; by constructor.
    + exists kept. split; [done|]. rewrite filter_cons_False by congruence.
      split; [done|]. by constructor.
Qed.

(** X21.  [analyze_daily_productivity] on the object store returns the same
    rate and verdict as the function on task values and writes nothing to
    the page.  The list it returns is a new list object, not the session
    list, but its elements are references taken from the session list, in
    order: it shares the task dicts with the session instead of copying
    them. *)
Theorem daily_analysis_on_store now0 now1 w tasks items ts :
  Imp.heap w !! tasks = Some (Imp.OList items) →
  dicts_at (Imp.heap w) items ts →
  ∃ r w',
    Imp.analyze_daily_productivity now0 now1 tasks w = Some (r, w') ∧
    Imp.page w' = Imp.page w ∧
    (r.1.1 ≫= Imp.tasks_at w', r.1.2, r.2) = analyze_daily_productivity now0 now1 ts ∧
    ∀ today_tasks, r.1.1 = Some today_tasks →
      today_tasks ≠ tasks ∧ Imp.heap w !! today_tasks = None ∧
      ∃ kept, Imp.heap w' !! today_tasks = Some (Imp.OList kept) ∧
              kept `sublist_of` items.
Proof.
  intros Hl Hd.
  destruct (select_run_sublist (λ task, bool_decide (Task.due_date task = date_of now0))
              w items ts Hd) as (kept & Hsel & Hkept & Hsub).
  rewrite filter_bool_decide in Hkept.
  unfold Imp.analyze_daily_productivity, Imp.comprehension, analyze_daily_productivity.
  set (l' := fresh (dom (Imp.heap w))).
  set (w' := Imp.World (<[l' := Imp.OList kept]> (Imp.heap w)) (Imp.page w)).
  set (today := filter (λ task, Task.due_date task = date_of now0) ts) in *.
  assert (Hfresh : Imp.heap w !! l' = None) by apply fresh_unused.
  assert (Hl' : Imp.heap w' !! l' = Some (Imp.OList kept)) by apply lookup_insert_eq.
  assert (Hkept' : dicts_at (Imp.heap w') kept today).
  { apply dicts_at_insert; [|done]. intros task. by rewrite Hfresh. }
  rewrite !bind_run, (load_list_run _ _ _ Hl), bind_run, Hsel.
  change (Imp.alloc (Imp.OList kept) w) with (Some (l', w')). cbv beta iota.
  rewrite bind_run, (load_list_run w' l' kept Hl').
  assert (Hat : Imp.tasks_at w' l' = Some today) by (by eapply tasks_at_intro).
  clearbody today.
  destruct kept as [|r kept].
  - apply Forall2_nil_inv_l in Hkept' as ->.
    exists (None, None, None), w'. by repeat split.
  - destruct today as [|task today]; [by apply Forall2_cons_nil_inv in Hkept'|].
    rewrite bind_run, (count_if_run Task.completed w' _ _ Hkept').
    rewrite (Forall2_length _ _ _ Hkept').
    eexists (_, _, _), w'. split; [reflexivity|]. split; [done|]. split.
    + simpl. by rewrite Hat.
    + simpl. intros today_tasks [= <-]. split; [intros ->; by rewrite Hl in Hfresh|].
      split; [done|]. by exists (r :: kept).
Qed.

Lemma daily_analysis_on_store_witness :
  let now := 738000 * US_PER_DAY + 9 * US_PER_HOUR in
  let t1 := Task.mk 1 "report" 738000 High (737999 * US_PER_DAY + 8 * US_PER_HOUR) false in
  let t2 := Task.mk 2 "call" 738002 Low (737999 * US_PER_DAY + 9 * US_PER_HOUR) true in
  let w := Imp.World (<[0%nat := Imp.OList [1%nat; 2%nat]]>
                       (<[1%nat := Imp.ODict t1]> (<[2%nat := Imp.ODict t2]> ∅))) [] in
  ∃ r w',
    Imp.analyze_daily_productivity now now 0%nat w = Some (r, w') ∧
    Imp.page w' = Imp.page w ∧
    (r.1.1 ≫= Imp.tasks_at w', r.1.2, r.2) = analyze_daily_productivity now now [t1; t2] ∧
    ∀ today_tasks, r.1.1 = Some today_tasks →
      today_tasks ≠ 0%nat ∧ Imp.heap w !! today_tasks = None ∧
      ∃ kept, Imp.heap w' !! today_tasks = Some (Imp.OList kept) ∧
              kept `sublist_of` [1%nat; 2%nat].
Proof.
  intros now t1 t2 w.
  apply (daily_analysis_on_store now now w 0%nat [1%nat; 2%nat] [t1; t2]).
  - reflexivity.
  - repeat constructor.
Defined.

(** X22.  [generate_timetable] on the object store returns a timetable
    object holding exactly the slots that the function on task values
    computes, or nothing when that function returns nothing; it writes
    nothing to the page and leaves every earlier object, the session list
    included, as it was: the sort reorders the function's own list only. *)
Theorem timetable_on_store now0 now1 w tasks ts :
  Imp.tasks_at w tasks = Some ts →
  ∃ r w',
    Imp.generate_timetable now0 now1 tasks w = Some (r, w') ∧
    Imp.heap w ⊆ Imp.heap w' ∧
    Imp.page w' = Imp.page w ∧
    ((r = None ∧ generate_timetable now0 now1 ts = None) ∨
     ∃ timetable slots,
       r = Some timetable ∧ Imp.timetable_at w' timetable = Some slots ∧
       generate_timetable now0 now1 ts = Some slots).
Proof. apply generate_timetable_run. Qed.

Lemma timetable_on_store_witness :
  let now := 738000 * US_PER_DAY + 9 * US_PER_HOUR in
  let t1 := Task.mk 1 "report" 738000 Low (737999 * US_PER_DAY + 8 * US_PER_HOUR) false in
  let t2 := Task.mk 2 "call" 738000 High (737999 * US_PER_DAY + 9 * US_PER_HOUR) false in
  let w := Imp.World (<[0%nat := Imp.OList [1%nat; 2%nat]]>
                       (<[1%nat := Imp.ODict t1]> (<[2%nat := Imp.ODict t2]> ∅))) [] in
  ∃ r w',
    Imp.generate_timetable now now 0%nat w = Some (r, w') ∧
    Imp.heap w ⊆ Imp.heap w' ∧
    Imp.page w' = Imp.page w ∧
    ((r = None ∧ generate_timetable now now [t1; t2] = None) ∨
     ∃ timetable slots,
       r = Some timetable ∧ Imp.timetable_at w' timetable = Some slots ∧
       generate_timetable now now [t1; t2] = Some slots).
Proof.
  intros now t1 t2 w. apply (timetable_on_store now now w 0%nat [t1; t2]). reflexivity.
Defined.

(** X23.  [analyze_productivity] on the object store returns a frame object
    with exactly the rows that the function on task values computes, or
    nothing when that function returns nothing; the page gains exactly the
    error box of that function, if any; every earlier object is left as it
    was. *)
Theorem productivity_on_store random_forest w tasks ts :
  Imp.tasks_at w tasks = Some ts →
  ∃ r w',
    Imp.analyze_productivity random_forest tasks w = Some (r, w') ∧
    Imp.heap w ⊆ Imp.heap w' ∧
    Imp.page w' = Imp.page w ++ (analyze_productivity random_forest ts).2 ∧
    ((r = None ∧ (analyze_productivity random_forest ts).1 = None) ∨
     ∃ df rows,
       r = Some df ∧ Imp.frame_at w' df = Some rows ∧
       (analyze_productivity random_forest ts).1 = Some rows).
Proof. apply analyze_productivity_run. Qed.

Lemma productivity_on_store_witness :
  let t1 := Task.mk 1 "report" 738000 Low (737999 * US_PER_DAY + 8 * US_PER_HOUR) false in
  let t2 := Task.mk 2 "call" 738000 High (737999 * US_PER_DAY + 9 * US_PER_HOUR) true in
  let w := Imp.World (<[0%nat := Imp.OList [1%nat; 2%nat]]>
                       (<[1%nat := Imp.ODict t1]> (<[2%nat := Imp.ODict t2]> ∅))) [] in
  let random_forest := λ (_ : list (Z * Z)) (_ : list Z),
                         inl "one class" : string + (Z * Z → float) in
  ∃ r w',
    Imp.analyze_productivity random_forest 0%nat w = Some (r, w') ∧
    Imp.heap w ⊆ Imp.heap w' ∧
    Imp.page w' = Imp.page w ++ (analyze_productivity random_forest [t1; t2]).2 ∧
    ((r = None ∧ (analyze_productivity random_forest [t1; t2]).1 = None) ∨
     ∃ df rows,
       r = Some df ∧ Imp.frame_at w' df = Some rows ∧
       (analyze_productivity random_forest [t1; t2]).1 = Some rows).
Proof.
  intros t1 t2 w random_forest.
  apply (productivity_on_store random_forest w 0%nat [t1; t2]). reflexivity.
Defined.
